(** * Camlistore client configuration resolver (pkg/client/config.go)

    A shallow embedding of the Go package-level state and functions of
    [pkg/client/config.go], and the properties of server, auth, identity and
    trusted-certificate resolution established on it.

    Go strings are byte strings: [string] of the Standard Library.  Go maps
    are [gmap]s.  The package-level variables, the environment, the file
    system and the log form an explicit [State] threaded through every
    function; [log.Fatal] and a failed type assertion end the run with a
    distinguished outcome. *)

From Stdlib Require Import String Ascii List ZArith Lia Bool.
From stdpp Require Import base option list gmap strings.

Local Open Scope string_scope.
Set Warnings "-register-all".
#[local] Arguments String.append !s1 s2 : simpl nomatch.
Set Default Proof Using "Type".

(** ** Go [strings] primitives *)

Module GoStrings.

(** [s[lo:hi]] for [lo <= hi <= len(s)]. *)
Definition slice (s : string) (lo hi : nat) : string :=
  String.substring lo (hi - lo) s.

(** [strings.HasPrefix]: [len(s) >= len(prefix) && s[0:len(prefix)] == prefix]. *)
Definition HasPrefix (s prefix : string) : bool :=
  (String.length prefix <=? String.length s)%nat
  && String.eqb (slice s 0 (String.length prefix)) prefix.

(** [strings.HasSuffix]: [len(s) >= len(suffix) && s[len(s)-len(suffix):] == suffix]. *)
Definition HasSuffix (s suffix : string) : bool :=
  (String.length suffix <=? String.length s)%nat
  && String.eqb (slice s (String.length s - String.length suffix) (String.length s)) suffix.

(** [strings.ToLower] on one byte: the ASCII letters [A]..[Z] go to [a]..[z],
    every other byte is kept.  (Go maps the letters outside ASCII by their
    Unicode case; certificate fingerprints are hexadecimal ASCII.) *)
Definition lower_byte (c : ascii) : ascii :=
  let n := nat_of_ascii c in
  if ((65 <=? n) && (n <=? 90))%nat then ascii_of_nat (n + 32) else c.

Fixpoint ToLower (s : string) : string :=
  match s with
  | EmptyString => EmptyString
  | String c s' => String (lower_byte c) (ToLower s')
  end.

(** [filepath.Join] of two elements that are already clean: empty elements
    are ignored, the others are joined by the separator. *)
Definition Join (dir name : string) : string :=
  match dir, name with
  | EmptyString, _ => name
  | _, EmptyString => dir
  | _, _ => dir +:+ "/" +:+ name
  end.

End GoStrings.
Import GoStrings.

(** ** Server normalization *)

(** [cleanServer], lines 76-86. *)
Definition cleanServer (server : string) : string :=
  (* Remove trailing slash if provided. *)
  let server :=
    if HasSuffix server "/" then slice server 0 (String.length server - 1)
    else server in
  (* Default to https:// when not specified *)
  let server :=
    if negb (HasPrefix server "http") && negb (HasPrefix server "https")
    then "https://" +:+ server
    else server in
  server.

(** ** Data model *)

(** A decoded JSON value, as [encoding/json] stores it in an
    [interface{}]: [nil], [bool], [float64] (its value is never inspected
    here), [string], [[]interface{}] and [map[string]interface{}]. *)
Inductive jvalue : Type :=
| JNull
| JBool (b : bool)
| JNum (n : Z)
| JStr (s : string)
| JArr (l : list jvalue)
| JObj (m : list (string * jvalue)).

(** [jsonconfig.Obj], a [map[string]interface{}]. *)
Abbreviation Obj := (gmap string jvalue).

(** The comma-ok assertion [v, ok := m[k].(string)]: [None] is [ok = false]
    (key absent, or value of another type). *)
Definition as_string (v : option jvalue) : option string :=
  match v with
  | Some (JStr s) => Some s
  | _ => None
  end.

(** The comma-ok assertion [v, ok := m[k].([]interface{})]. *)
Definition as_slice (v : option jvalue) : option (list jvalue) :=
  match v with
  | Some (JArr l) => Some l
  | _ => None
  end.

(** What [%T] prints for a decoded JSON value. *)
Definition typeName (v : jvalue) : string :=
  match v with
  | JNull => "<nil>"
  | JBool _ => "bool"
  | JNum _ => "float64"
  | JStr _ => "string"
  | JArr _ => "[]interface {}"
  | JObj _ => "map[string]interface {}"
  end.

Definition is_JStr (v : jvalue) : bool :=
  match v with
  | JStr _ => true
  | _ => false
  end.

(** Go [error] values: the two sentinels the code compares against, and
    any other error with its message. *)
Inductive error : Type :=
| ErrNotExist               (* os.ErrNotExist *)
| ErrNoAuth                 (* auth.ErrNoAuth *)
| ErrOther (msg : string).

(** [err == auth.ErrNoAuth] *)
Definition is_ErrNoAuth (err : option error) : bool :=
  match err with
  | Some ErrNoAuth => true
  | _ => false
  end.

(** A file-system entry, as far as [os.Stat] and the readers tell. *)
Inductive node : Type :=
| File (data : string)
| Dir.

Definition IsDir (fi : node) : bool :=
  match fi with
  | Dir => true
  | File _ => false
  end.

(** What the process does to the outside world, in order. *)
Inductive event : Type :=
| EvStat (path : string)                    (* os.Stat *)
| EvJsonReadFile (path : string)            (* jsonconfig.ReadFile *)
| EvSecring (keyId file : string)           (* jsonsign.EntityFromSecring *)
| EvWriteFile (path data : string)          (* ioutil.WriteFile *)
| EvLog (format : string) (args : list string).   (* log.Printf, log.Fatalf *)

Definition is_JsonRead (e : event) : bool :=
  match e with
  | EvJsonReadFile _ => true
  | _ => false
  end.

Definition is_Write (e : event) : bool :=
  match e with
  | EvWriteFile _ _ => true
  | _ => false
  end.

(** The double-quote byte, for the format strings that contain it. *)
Definition dq : string := String (ascii_of_nat 34) EmptyString.

(** ** Packages outside this file

    The functions of [osutil], [jsonconfig], [auth], [jsonsign] and
    [blobref] that [config.go] calls.  Those that touch the file system are
    split into the file access, done by the model, and the pure part, taken
    here. *)
Class Externals : Type := {
  AuthMode : Type;                      (* auth.AuthMode *)
  Entity : Type;                        (* *openpgp.Entity *)
  BlobRef : Type;                       (* blobref.BlobRef *)
  CamliConfigDir : string;              (* osutil.CamliConfigDir() *)
  IdentitySecretRing : string;          (* osutil.IdentitySecretRing() *)
  DefaultSecRingPath : string;          (* jsonsign.DefaultSecRingPath() *)
  (* jsonconfig.ReadFile, on the bytes of the file *)
  jsonconfig_parse : string -> Obj + string;
  (* auth.FromEnv, on the environment *)
  auth_FromEnv : gmap string string -> option AuthMode * option error;
  (* auth.FromConfig *)
  auth_FromConfig : string -> option AuthMode * option error;
  (* jsonsign.EntityFromSecring, on the key id and the bytes of the ring *)
  secring_lookup : string -> string -> Entity + string;
  (* jsonsign.ArmoredPublicKey *)
  ArmoredPublicKey : Entity -> string + string;
  (* blobref.SHA1FromString *)
  SHA1FromString : string -> BlobRef;
  (* the String method of blobref.BlobRef *)
  BlobRef_String : BlobRef -> string;
}.

Section Model.
Context `{Ext : Externals}.

(** The fields of [Client] (client.go) that this file reads and writes. *)
Record Client : Type := mkClient {
  server : string;
  authMode : option AuthMode;
  trustedCerts : list string;   (* a nil slice and an empty one are both [] *)
}.

Definition zeroClient : Client :=
  {| server := EmptyString; authMode := None; trustedCerts := [] |}.

(** The process: flag, environment, file system, the package-level
    variables of lines 39, 58-60, 160-163 and 241, the [Client] objects by
    address, and the trace of events so far (latest first). *)
Record State : Type := mkState {
  flagServer : option string;           (* var flagServer *string; None is nil *)
  env : gmap string string;
  fs : gmap string node;
  unwritable : gset string;             (* paths where a write is refused *)
  configOnce : bool;                    (* var configOnce sync.Once: done? *)
  config : Obj;
  parseConfigErr : option error;
  signerPublicKeyRefOnce : bool;
  signerPublicKeyRef : option BlobRef;  (* None is nil *)
  initTrustedCertsOnce : bool;
  clients : gmap nat Client;
  trace : list event;
}.

(** The state of a process that has just started. *)
Definition initState (flag : option string) (e : gmap string string)
    (files : gmap string node) (ro : gset string) : State :=
  {| flagServer := flag; env := e; fs := files; unwritable := ro;
     configOnce := false; config := ∅; parseConfigErr := None;
     signerPublicKeyRefOnce := false; signerPublicKeyRef := None;
     initTrustedCertsOnce := false; clients := ∅; trace := [] |}.

Definition set_fs (x : gmap string node) (st : State) : State :=
  mkState (flagServer st) (env st) x (unwritable st) (configOnce st) (config st)
    (parseConfigErr st) (signerPublicKeyRefOnce st) (signerPublicKeyRef st)
    (initTrustedCertsOnce st) (clients st) (trace st).

Definition set_configOnce (x : bool) (st : State) : State :=
  mkState (flagServer st) (env st) (fs st) (unwritable st) x (config st)
    (parseConfigErr st) (signerPublicKeyRefOnce st) (signerPublicKeyRef st)
    (initTrustedCertsOnce st) (clients st) (trace st).

Definition set_config (x : Obj) (st : State) : State :=
  mkState (flagServer st) (env st) (fs st) (unwritable st) (configOnce st) x
    (parseConfigErr st) (signerPublicKeyRefOnce st) (signerPublicKeyRef st)
    (initTrustedCertsOnce st) (clients st) (trace st).

Definition set_parseConfigErr (x : option error) (st : State) : State :=
  mkState (flagServer st) (env st) (fs st) (unwritable st) (configOnce st) (config st)
    x (signerPublicKeyRefOnce st) (signerPublicKeyRef st)
    (initTrustedCertsOnce st) (clients st) (trace st).

Definition set_signerPublicKeyRefOnce (x : bool) (st : State) : State :=
  mkState (flagServer st) (env st) (fs st) (unwritable st) (configOnce st) (config st)
    (parseConfigErr st) x (signerPublicKeyRef st)
    (initTrustedCertsOnce st) (clients st) (trace st).

Definition set_signerPublicKeyRef (x : option BlobRef) (st : State) : State :=
  mkState (flagServer st) (env st) (fs st) (unwritable st) (configOnce st) (config st)
    (parseConfigErr st) (signerPublicKeyRefOnce st) x
    (initTrustedCertsOnce st) (clients st) (trace st).

Definition set_initTrustedCertsOnce (x : bool) (st : State) : State :=
  mkState (flagServer st) (env st) (fs st) (unwritable st) (configOnce st) (config st)
    (parseConfigErr st) (signerPublicKeyRefOnce st) (signerPublicKeyRef st)
    x (clients st) (trace st).

Definition set_clients (x : gmap nat Client) (st : State) : State :=
  mkState (flagServer st) (env st) (fs st) (unwritable st) (configOnce st) (config st)
    (parseConfigErr st) (signerPublicKeyRefOnce st) (signerPublicKeyRef st)
    (initTrustedCertsOnce st) x (trace st).

Definition set_trace (x : list event) (st : State) : State :=
  mkState (flagServer st) (env st) (fs st) (unwritable st) (configOnce st) (config st)
    (parseConfigErr st) (signerPublicKeyRefOnce st) (signerPublicKeyRef st)
    (initTrustedCertsOnce st) (clients st) x.

(** The [Client] behind the pointer [c]; an address not yet in the store
    is a [Client] whose fields still have their zero values. *)
Definition client_of (st : State) (c : nat) : Client :=
  default zeroClient (clients st !! c).

Definition set_authMode (x : option AuthMode) (cl : Client) : Client :=
  mkClient (server cl) x (trustedCerts cl).

Definition set_trustedCerts (x : list string) (cl : Client) : Client :=
  mkClient (server cl) (authMode cl) x.

Definition update_client (c : nat) (f : Client -> Client) (st : State) : State :=
  set_clients (<[c := f (client_of st c)]> (clients st)) st.

(** ** Outcomes and the monad of the process *)

(** A call returns, or the process exits through [log.Fatal] (the
    diagnostic is kept), or it panics. *)
Inductive outcome (A : Type) : Type :=
| Ret (a : A) (st : State)
| Fatal (format : string) (args : list string) (st : State)
| Panic (msg : string) (st : State).
#[global] Arguments Ret {A} a st.
#[global] Arguments Fatal {A} format args st.
#[global] Arguments Panic {A} msg st.

Definition final {A} (o : outcome A) : State :=
  match o with
  | Ret _ st => st
  | Fatal _ _ st => st
  | Panic _ st => st
  end.

Definition M (A : Type) : Type := State -> outcome A.

Definition ret {A} (a : A) : M A := fun st => Ret a st.

Definition bind {A B} (m : M A) (k : A -> M B) : M B :=
  fun st =>
    match m st with
    | Ret a st' => k a st'
    | Fatal f args st' => Fatal f args st'
    | Panic msg st' => Panic msg st'
    end.

Definition gets {A} (f : State -> A) : M A := fun st => Ret (f st) st.

Definition modify (f : State -> State) : M unit := fun st => Ret tt (f st).

Definition emit (e : event) : M unit :=
  modify (fun st => set_trace (e :: trace st) st).

Definition panic {A} (msg : string) : M A := fun st => Panic msg st.

End Model.

Notation "'do' x <- m ; k" := (bind m (fun x => k))
  (at level 10, x name, m at level 100, k at level 200, only parsing).
Notation "'run' m ; k" := (bind m (fun _ => k))
  (at level 10, m at level 100, k at level 200, only parsing).

(** ** The functions of config.go *)

Section Program.
Context `{Ext : Externals}.

(** *** System calls and calls into other packages *)

(** [os.Getenv]: an unset variable reads as the empty string. *)
Definition os_Getenv (key : string) : M string :=
  gets (fun st => default EmptyString (env st !! key)).

(** [os.Stat]: [None] is the error of a path that does not exist. *)
Definition os_Stat (path : string) : M (option node) :=
  run emit (EvStat path) ;
  gets (fun st => fs st !! path).

(** [ioutil.WriteFile]: creates or replaces the file; refused on a
    directory and on the paths the process may not write. *)
Definition ioutil_WriteFile (path data : string) : M (option error) :=
  run emit (EvWriteFile path data) ;
  do st <- gets id ;
  if bool_decide (path ∈ unwritable st) then ret (Some (ErrOther "permission denied"))
  else match fs st !! path with
       | Some Dir => ret (Some (ErrOther "is a directory"))
       | _ => run modify (set_fs (<[path := File data]> (fs st))) ; ret None
       end.

(** [jsonconfig.ReadFile]: reads the file and decodes it. *)
Definition jsonconfig_ReadFile (path : string) : M (Obj + string) :=
  run emit (EvJsonReadFile path) ;
  gets (fun st => match fs st !! path with
                  | Some (File data) => jsonconfig_parse data
                  | _ => inr "read error"
                  end).

(** [jsonsign.EntityFromSecring]: reads the ring and looks the key up. *)
Definition jsonsign_EntityFromSecring (keyId keyRing : string) : M (Entity + string) :=
  run emit (EvSecring keyId keyRing) ;
  gets (fun st => match fs st !! keyRing with
                  | Some (File data) => secring_lookup keyId data
                  | _ => inr "open error"
                  end).

(** [log.Printf] *)
Definition log_Printf (format : string) (args : list string) : M unit :=
  emit (EvLog format args).

(** [log.Fatalf]: prints, then [os.Exit(1)]. *)
Definition log_Fatalf {A} (format : string) (args : list string) : M A :=
  fun st => Fatal format args (set_trace (EvLog format args :: trace st) st).

(** [log.Fatal(s)], which prints [s] as [%v] does. *)
Definition log_Fatal {A} (s : string) : M A := log_Fatalf "%v" [s].

(** [once.Do(f)] for the [sync.Once] read by [done] and marked by [mark]:
    [f] runs if the [Once] is not done yet, and the [Once] is done when [f]
    returns or panics ([log.Fatal] inside [f] exits the process). *)
Definition Once_Do (done : State -> bool) (mark : bool -> State -> State)
    (f : M unit) : M unit :=
  fun st =>
    if done st then Ret tt st
    else match f st with
         | Ret _ st' => Ret tt (mark true st')
         | Fatal format args st' => Fatal format args st'
         | Panic msg st' => Panic msg (mark true st')
         end.

Definition configOnce_Do := Once_Do configOnce set_configOnce.
Definition signerPublicKeyRefOnce_Do :=
  Once_Do signerPublicKeyRefOnce set_signerPublicKeyRefOnce.
Definition initTrustedCertsOnce_Do :=
  Once_Do initTrustedCertsOnce set_initTrustedCertsOnce.

(** [flagServer != nil && *flagServer != ""], with the string. *)
Definition explicit_flag (st : State) : option string :=
  match flagServer st with
  | Some s => if String.eqb s EmptyString then None else Some s
  | None => None
  end.

(** *** Lines 46-74 *)

Definition ExplicitServer : M string :=
  gets (fun st => match flagServer st with
                  | Some s => s
                  | None => EmptyString
                  end).

Definition ConfigFilePath : string := Join CamliConfigDir "config".

Definition parseConfig : M unit :=
  let configPath := ConfigFilePath in
  do fi <- os_Stat configPath ;
  match fi with
  | None => modify (set_parseConfigErr (Some ErrNotExist))
  | Some _ =>
      do r <- jsonconfig_ReadFile configPath ;
      match r with
      | inr err => run modify (set_config ∅) ; log_Fatal err
      | inl obj => modify (set_config obj)
      end
  end.

(** *** Lines 88-103 *)

Definition serverOrDie : M string :=
  do flag <- gets explicit_flag ;
  match flag with
  | Some s => ret (cleanServer s)
  | None =>
      run configOnce_Do parseConfig ;
      do value <- gets (fun st => config st !! "server") ;
      let ok := bool_decide (is_Some value) in
      do server <- match value with
                | None => ret EmptyString
                | Some (JStr s) => ret s
                | Some v =>
                    panic ("interface conversion: interface {} is "
                           +:+ typeName v +:+ ", not string")
                end ;
      let server := cleanServer server in
      if negb ok || String.eqb server EmptyString
      then log_Fatalf ("Missing or invalid " +:+ dq +:+ "server" +:+ dq +:+ " in %q")
                      [ConfigFilePath]
      else ret server
  end.

(** *** Lines 105-136 *)

Definition useTLS (c : nat) : M bool :=
  gets (fun st => HasPrefix (server (client_of st c)) "https://").

Definition SetupAuthFromConfig (c : nat) (conf : Obj) : M (option error) :=
  match conf !! "auth" with
  | Some value =>
      let authString := default EmptyString (as_string (Some value)) in
      let r := auth_FromConfig authString in
      run modify (update_client c (set_authMode (fst r))) ;
      ret (snd r)
  | None =>
      do e <- gets env ;
      let r := auth_FromEnv e in
      run modify (update_client c (set_authMode (fst r))) ;
      ret (snd r)
  end.

Definition SetupAuth (c : nat) : M (option error) :=
  do flag <- gets explicit_flag ;
  match flag with
  | Some _ =>
      (* If using an explicit blobserver, don't use auth configured from
         the config file, so we don't send our password to a friend's
         blobserver. *)
      do e <- gets env ;
      let r := auth_FromEnv e in
      run modify (update_client c (set_authMode (fst r))) ;
      run (if is_ErrNoAuth (snd r)
           then log_Printf "Using explicit --server parameter; not using config file auth, and no auth mode set in environment" []
           else ret tt) ;
      ret (snd r)
  | None =>
      run configOnce_Do parseConfig ;
      do conf <- gets config ;
      SetupAuthFromConfig c conf
  end.

(** *** Lines 138-229 *)

Definition fileExists (name : string) : M bool :=
  do fi <- os_Stat name ;
  ret (bool_decide (is_Some fi)).

Definition SecretRingFile (c : nat) : M string :=
  run configOnce_Do parseConfig ;
  do value <- gets (fun st => as_string (config st !! "secretRing")) ;
  let ok := bool_decide (is_Some value) in
  let keyRing := default EmptyString value in
  if ok && negb (String.eqb keyRing EmptyString) then ret keyRing
  else
    let keyRing := IdentitySecretRing in
    do found <- fileExists keyRing ;
    if found then ret keyRing
    else ret DefaultSecRingPath.

(** [err.Error()] as the log prints it. *)
Definition error_string (e : error) : string :=
  match e with
  | ErrNotExist => "file does not exist"
  | ErrNoAuth => "no auth"
  | ErrOther msg => msg
  end.

(** Lines 194-228 of [getSignerPublicKeyBlobref]: from the key id and the
    ring file to the published blob. *)
Definition publishSignerPublicKey (keyId keyRing : string) : M (option BlobRef) :=
  do found <- jsonsign_EntityFromSecring keyId keyRing ;
  match found with
  | inr err =>
      run log_Printf "Couldn't find keyId %q in secret ring: %v" [keyId; err] ;
      ret None
  | inl entity =>
      match ArmoredPublicKey entity with
      | inr err =>
          run log_Printf "Error serializing public key: %v" [err] ;
          ret None
      | inl armored =>
          do dir <- gets (fun st => as_string (config st !! "selfPubKeyDir")) ;
          match dir with
          | None =>
              run log_Printf "No 'selfPubKeyDir' defined in %q" [ConfigFilePath] ;
              ret None
          | Some selfPubKeyDir =>
              do fi <- os_Stat selfPubKeyDir ;
              if negb (from_option IsDir false fi)
              then
                run log_Printf "selfPubKeyDir of %q doesn't exist or not a directory"
                               [selfPubKeyDir] ;
                ret None
              else
                let br := SHA1FromString armored in
                let pubFile := Join selfPubKeyDir (BlobRef_String br +:+ ".camli") in
                do fi <- os_Stat pubFile ;
                match fi with
                | Some _ => ret (Some br)
                | None =>
                    do err <- ioutil_WriteFile pubFile armored ;
                    match err with
                    | Some e =>
                        run log_Printf "Error writing public key to %q: %v"
                                       [pubFile; error_string e] ;
                        ret None
                    | None => ret (Some br)
                    end
                end
          end
      end
  end.

Definition getSignerPublicKeyBlobref : M (option BlobRef) :=
  run configOnce_Do parseConfig ;
  let key := "keyId" in
  do keyId <- gets (fun st => as_string (config st !! key)) ;
  match keyId with
  | None =>
      run log_Printf ("No key %q in JSON configuration file %q; have you run "
                      +:+ dq +:+ "camput init" +:+ dq +:+ "?")
                     [key; ConfigFilePath] ;
      ret None
  | Some keyId =>
      do keyRing <- gets (fun st => as_string (config st !! "secretRing")) ;
      match keyRing with
      | Some keyRing => publishSignerPublicKey keyId keyRing
      | None =>
          do found <- fileExists IdentitySecretRing ;
          if found then publishSignerPublicKey keyId IdentitySecretRing
          else
            do found <- fileExists DefaultSecRingPath ;
            if found then publishSignerPublicKey keyId DefaultSecRingPath
            else
              run log_Printf "Couldn't find keyId %q; no 'secretRing' specified in config file, and no standard secret ring files exist." [] ;
              ret None
      end
  end.

Definition initSignerPublicKeyBlobref : M unit :=
  do r <- getSignerPublicKeyBlobref ;
  modify (set_signerPublicKeyRef r).

Definition SignerPublicKeyBlobref : M (option BlobRef) :=
  run signerPublicKeyRefOnce_Do initSignerPublicKeyBlobref ;
  gets signerPublicKeyRef.

(** The method of [Client], line 139. *)
Definition Client_SignerPublicKeyBlobref (c : nat) : M (option BlobRef) :=
  SignerPublicKeyBlobref.

(** *** Lines 236-267 *)

Definition trustedCertsKey : string := "trustedCerts".

(** The loop of lines 254-261 over the rest of the list. *)
Fixpoint initTrustedCerts_loop (c : nat) (val : list jvalue) : M unit :=
  match val with
  | [] => ret tt
  | v :: rest =>
      match v with
      | JStr trustedCert =>
          run modify (update_client c (fun cl =>
                set_trustedCerts (trustedCerts cl ++ [ToLower trustedCert]) cl)) ;
          initTrustedCerts_loop c rest
      | _ =>
          log_Printf "trustedCert: was expecting a string, got %T" [typeName v]
      end
  end.

Definition initTrustedCerts (c : nat) : M unit :=
  do e <- os_Getenv "CAMLI_TRUSTED_CERT" ;
  if negb (String.eqb e EmptyString)
  then modify (update_client c (set_trustedCerts [e]))
  else
    run modify (update_client c (set_trustedCerts [])) ;
    run configOnce_Do parseConfig ;
    do val <- gets (fun st => as_slice (config st !! trustedCertsKey)) ;
    match val with
    | None => ret tt
    | Some val => initTrustedCerts_loop c val
    end.

Definition GetTrustedCerts (c : nat) : M (list string) :=
  run initTrustedCertsOnce_Do (initTrustedCerts c) ;
  gets (fun st => trustedCerts (client_of st c)).

(** *** Measures on the trace *)

(** How many times [jsonconfig.ReadFile] was called. *)
Definition config_reads (st : State) : nat :=
  length (filter (fun e => is_JsonRead e = true) (trace st)).

(** How many times [ioutil.WriteFile] was called. *)
Definition file_writes (st : State) : nat :=
  length (filter (fun e => is_Write e = true) (trace st)).

End Program.

(** ** Vocabulary for the trusted certificates *)

(** The strings in front of the first element that is not a string. *)
Fixpoint leading_strings (val : list jvalue) : list string :=
  match val with
  | JStr s :: rest => s :: leading_strings rest
  | _ => []
  end.

(** The first element that is not a string, if any. *)
Fixpoint first_nonstring (val : list jvalue) : option jvalue :=
  match val with
  | [] => None
  | JStr _ :: rest => first_nonstring rest
  | v :: _ => Some v
  end.

(** A fingerprint in its canonical lower-case form. *)
Definition lowercased (s : string) : Prop := ToLower s = s.

(** A trust set that holds some of the listed certificates and not all. *)
Definition partially_populated (val : list jvalue) (certs : list string) : Prop :=
  certs <> [] /\ length certs < length val.

(** ** The life of a process

    What may happen, one step at a time, between two moments of a running
    process: one of the resolvers of this file is called and comes back, or
    the files on disk change under the process. *)

Section Lifetime.
Context `{Ext : Externals}.

(** The state in which the process goes on after a call: [log.Fatal]
    leaves none. *)
Definition after {A} (o : outcome A) : option State :=
  match o with
  | Ret _ st => Some st
  | Panic _ st => Some st
  | Fatal _ _ _ => None
  end.

Inductive resolver : Type :=
| CallServerOrDie
| CallSetupAuth (c : nat)
| CallSecretRingFile (c : nat)
| CallSignerPublicKeyBlobref
| CallGetTrustedCerts (c : nat).

Definition call (r : resolver) (st : State) : option State :=
  match r with
  | CallServerOrDie => after (serverOrDie st)
  | CallSetupAuth c => after (SetupAuth c st)
  | CallSecretRingFile c => after (SecretRingFile c st)
  | CallSignerPublicKeyBlobref => after (SignerPublicKeyBlobref st)
  | CallGetTrustedCerts c => after (GetTrustedCerts c st)
  end.

Inductive step : State -> State -> Prop :=
| step_call (r : resolver) (st st' : State) :
    call r st = Some st' -> step st st'
| step_disk (files : gmap string node) (st : State) :
    step st (set_fs files st).

(** The cached configuration of [st] is still the one of [st'], and the
    configuration file was not read in between. *)
Definition config_kept (st st' : State) : Prop :=
  configOnce st' = true /\
  config st' = config st /\
  parseConfigErr st' = parseConfigErr st /\
  config_reads st' = config_reads st.

(** [m] keeps the cached configuration whenever it starts with the
    configuration loaded. *)
Definition keeps_config {A} (m : M A) : Prop :=
  forall st, configOnce st = true -> config_kept st (final (m st)).

(** [m] leaves the configuration cache and the count of its loads as
    they are, however it ends. *)
Definition cache_frame {A} (m : M A) : Prop :=
  forall st,
    configOnce (final (m st)) = configOnce st /\
    config (final (m st)) = config st /\
    parseConfigErr (final (m st)) = parseConfigErr st /\
    config_reads (final (m st)) = config_reads st.

(** Started before the configuration is loaded, [m] either leaves the
    cache alone or loads it, reading the file at most once; started after,
    it keeps it. *)
Definition loads_once {A} (m : M A) : Prop :=
  keeps_config m /\
  forall st, configOnce st = false ->
    match after (m st) with
    | Some st' =>
        (configOnce st' = false /\ config st' = config st /\
         config_reads st' = config_reads st) \/
        (configOnce st' = true /\ config_reads st' <= S (config_reads st))
    | None => True
    end.

(** What holds of the cache at every moment of a process. *)
Definition load_inv (st : State) : Prop :=
  config_reads st <= 1 /\
  (configOnce st = false -> config_reads st = 0 /\ config st = ∅).

End Lifetime.

(** ** A concrete instance of the outside packages

    Used to run the model on concrete inputs: the decoder yields the given
    object for any file, an auth mode is the text of its configuration, a
    ring holds the key whose id is its content, and the hash of a text is
    the text itself. *)
Module Demo.

Definition ext (obj : Obj) : Externals :=
  {| AuthMode := string;
     Entity := string;
     BlobRef := string;
     CamliConfigDir := "/home/u/.camlistore";
     IdentitySecretRing := "/home/u/.camlistore/identity-secring.gpg";
     DefaultSecRingPath := "/home/u/.gnupg/secring.gpg";
     jsonconfig_parse := fun _ => inl obj;
     auth_FromEnv := fun e =>
       match e !! "CAMLI_AUTH" with
       | Some a => (Some a, None)
       | None => (None, Some ErrNoAuth)
       end;
     auth_FromConfig := fun a =>
       if String.eqb a EmptyString then (None, Some (ErrOther "bad auth"))
       else (Some a, None);
     secring_lookup := fun keyId data =>
       if String.eqb keyId data then inl keyId else inr "key not found";
     ArmoredPublicKey := fun e => inl ("PGP " +:+ e);
     SHA1FromString := fun text => text;
     BlobRef_String := fun br => "sha1-" +:+ br |}.

Definition configPath : string := "/home/u/.camlistore/config".

(** A fresh process with a config file at the standard place. *)
Definition start (obj : Obj) (flag : option string) (e : gmap string string)
    (files : gmap string node) : @State (ext obj) :=
  @initState (ext obj) flag e (<[configPath := File "{}"]> files) ∅.

End Demo.

(** * Properties *)

(** ** Byte strings *)

Section StringFacts.

Lemma append_empty_r (s : string) : s +:+ EmptyString = s.
Proof. induction s as [|c s IH]; simpl; [reflexivity | now rewrite IH]. Qed.

Lemma append_assoc (a b c : string) : (a +:+ b) +:+ c = a +:+ (b +:+ c).
Proof. induction a as [|x a IH]; simpl; [reflexivity | now rewrite IH]. Qed.

Lemma length_append (a b : string) :
  String.length (a +:+ b) = String.length a + String.length b.
Proof. induction a as [|x a IH]; simpl; [reflexivity | now rewrite IH]. Qed.

Lemma substring_all (s : string) : String.substring 0 (String.length s) s = s.
Proof. induction s as [|c s IH]; simpl; [reflexivity | now rewrite IH]. Qed.

Lemma substring_0_append (p t : string) :
  String.substring 0 (String.length p) (p +:+ t) = p.
Proof.
  induction p as [|c p IH]; simpl.
  - now destruct t.
  - now rewrite IH.
Qed.

Lemma substring_skip_append (p t : string) (n : nat) :
  String.substring (String.length p) n (p +:+ t) = String.substring 0 n t.
Proof. induction p as [|c p IH]; simpl; [reflexivity | exact IH]. Qed.

(** A string splits at any position within it. *)
Lemma substring_split (s : string) (n : nat) :
  n <= String.length s ->
  s = String.substring 0 n s +:+ String.substring n (String.length s - n) s.
Proof.
  revert n. induction s as [|c s IH]; intros n Hn; simpl in *.
  - assert (n = 0) by lia. now subst.
  - destruct n as [|n]; simpl.
    + now rewrite substring_all.
    + f_equal. apply IH. lia.
Qed.

Lemma HasPrefix_true (s p : string) :
  HasPrefix s p = true <-> exists t, s = p +:+ t.
Proof.
  unfold HasPrefix, slice. rewrite andb_true_iff, Nat.leb_le, String.eqb_eq.
  rewrite Nat.sub_0_r. split.
  - intros [Hlen Hsub].
    pose proof (substring_split s (String.length p) Hlen) as Hs.
    rewrite Hsub in Hs. eexists. apply Hs.
  - intros [t ->]. rewrite length_append, substring_0_append. split; [lia | reflexivity].
Qed.

Lemma HasSuffix_true (s suf : string) :
  HasSuffix s suf = true <-> exists t, s = t +:+ suf.
Proof.
  unfold HasSuffix, slice. rewrite andb_true_iff, Nat.leb_le, String.eqb_eq. split.
  - intros [Hlen Hsub].
    pose proof (substring_split s (String.length s - String.length suf)) as Hs.
    rewrite Hsub in Hs. eexists. apply Hs. lia.
  - intros [t ->]. rewrite length_append. split; [lia |].
    replace (String.length t + String.length suf - String.length suf) with (String.length t) by lia.
    replace (String.length t + String.length suf - String.length t) with (String.length suf) by lia.
    rewrite substring_skip_append. apply substring_all.
Qed.

(** [s[0:len(s)-1]] drops the last byte. *)
Lemma slice_drop_last (t : string) (c : ascii) :
  let s := t +:+ String c EmptyString in
  slice s 0 (String.length s - 1) = t.
Proof.
  simpl. unfold slice. rewrite length_append. simpl.
  replace (String.length t + 1 - 1 - 0) with (String.length t) by lia.
  apply substring_0_append.
Qed.

Lemma append_snoc_inj (a b : string) (c d : ascii) :
  a +:+ String c EmptyString = b +:+ String d EmptyString -> a = b /\ c = d.
Proof.
  revert b. induction a as [|x a IH]; intros [|y b] H; simpl in H.
  - now inversion H.
  - inversion H as [[Hc Hb]]. destruct b; discriminate.
  - inversion H as [[Hc Ha]]. destruct a; discriminate.
  - inversion H as [[Hxy Hab]]. apply IH in Hab as [-> ->]. now split.
Qed.

Lemma string_snoc_cases (s : string) :
  s = EmptyString \/ exists t c, s = t +:+ String c EmptyString.
Proof.
  induction s as [|x s IH]; [now left | right].
  destruct IH as [-> | (t & c & ->)].
  - now exists EmptyString, x.
  - now exists (String x t), c.
Qed.

Lemma append_eq_empty (a b : string) : a +:+ b = EmptyString -> a = EmptyString /\ b = EmptyString.
Proof. destruct a; simpl; [auto | discriminate]. Qed.

(** A non-empty tail decides whether the whole ends in a slash. *)
Lemma HasSuffix_slash_append (p t : string) :
  t <> EmptyString -> HasSuffix (p +:+ t) "/" = HasSuffix t "/".
Proof.
  intros Ht. destruct (string_snoc_cases t) as [-> | (u & c & ->)]; [done |].
  apply eq_true_iff_eq. rewrite !HasSuffix_true. split.
  - intros [w Hw]. rewrite <- append_assoc in Hw.
    apply append_snoc_inj in Hw as [_ ->]. now exists u.
  - intros [w Hw]. apply append_snoc_inj in Hw as [_ ->].
    exists (p +:+ u). now rewrite append_assoc.
Qed.

End StringFacts.

(** ** Server normalization and resolution *)

Section ServerFacts.
Context `{Ext : Externals}.

Lemma HasPrefix_https_http (t : string) :
  HasPrefix t "http" = false -> HasPrefix t "https" = false.
Proof.
  intros Hn. destruct (HasPrefix t "https") eqn:Hs; [| reflexivity].
  apply HasPrefix_true in Hs as [u ->].
  assert (HasPrefix ("https" +:+ u) "http" = true) as Hp.
  { apply HasPrefix_true. now exists ("s" +:+ u). }
  congruence.
Qed.

(** The two steps of [cleanServer], with the redundant test removed. *)
Lemma cleanServer_steps (s : string) :
  cleanServer s =
    let t := if HasSuffix s "/" then slice s 0 (String.length s - 1) else s in
    if HasPrefix t "http" then t else "https://" +:+ t.
Proof.
  unfold cleanServer. cbv zeta.
  destruct (HasSuffix s "/");
    match goal with |- context [negb (HasPrefix ?t "http")] =>
      destruct (HasPrefix t "http") eqn:Hp; simpl;
      [reflexivity | now rewrite (HasPrefix_https_http t Hp)]
    end.
Qed.

Lemma cleanServer_slash (t : string) :
  cleanServer (t +:+ "/") = if HasPrefix t "http" then t else "https://" +:+ t.
Proof.
  rewrite cleanServer_steps. cbv zeta.
  assert (HasSuffix (t +:+ "/") "/" = true) as -> by (apply HasSuffix_true; eauto).
  now rewrite (slice_drop_last t "/").
Qed.

Lemma cleanServer_no_slash (s : string) :
  HasSuffix s "/" = false ->
  cleanServer s = if HasPrefix s "http" then s else "https://" +:+ s.
Proof. intros H. rewrite cleanServer_steps. cbv zeta. now rewrite H. Qed.

Lemma cleanServer_has_scheme (s : string) : HasPrefix (cleanServer s) "http" = true.
Proof.
  rewrite cleanServer_steps. cbv zeta.
  match goal with |- context [HasPrefix ?t "http"] =>
    destruct (HasPrefix t "http") eqn:Hp; [exact Hp |] end.
  apply HasPrefix_true. eexists ("s://" +:+ _). reflexivity.
Qed.

Lemma cleanServer_nonempty (s : string) : cleanServer s <> EmptyString.
Proof.
  intros H. pose proof (cleanServer_has_scheme s) as Hp. rewrite H in Hp. discriminate.
Qed.

(** The normalized value ends in a slash exactly when nothing, or a
    slash, is left in front of the stripped slash. *)
Lemma cleanServer_ends_slash (s : string) :
  HasSuffix (cleanServer s) "/" = true <->
  s = EmptyString \/ s = "/" \/ HasSuffix s "//" = true.
Proof.
  destruct (HasSuffix s "/") eqn:Hs.
  - apply HasSuffix_true in Hs as [t ->]. rewrite cleanServer_slash.
    assert (HasSuffix (t +:+ "/") "//" = true <-> HasSuffix t "/" = true) as Hss.
    { rewrite !HasSuffix_true. split.
      - intros [u Hu]. change "//" with ("/" +:+ "/") in Hu.
        rewrite <- append_assoc in Hu.
        apply append_snoc_inj in Hu as [-> _]. eauto.
      - intros [u ->]. exists u. now rewrite append_assoc. }
    rewrite Hss. destruct (HasPrefix t "http") eqn:Hp.
    + split; [tauto |]. intros [H | [H | H]]; [| | exact H].
      * apply append_eq_empty in H as [_ H]. discriminate.
      * destruct t; [discriminate |]. simpl in H. inversion H as [[Hc Ht]].
        destruct t; discriminate.
    + destruct (string_snoc_cases t) as [-> | (u & c & ->)].
      * split; [auto | reflexivity].
      * rewrite HasSuffix_slash_append by (destruct u; discriminate).
        split; [tauto |]. intros [H | [H | H]]; [| | exact H].
        -- apply append_eq_empty in H as [_ H]. discriminate.
        -- change "/" with (EmptyString +:+ "/") in H at 2.
           apply append_snoc_inj in H as [H _].
           apply append_eq_empty in H as [_ H]. discriminate.
  - rewrite cleanServer_no_slash by exact Hs.
    assert (HasSuffix s "//" = false) as Hss.
    { destruct (HasSuffix s "//") eqn:H2; [| reflexivity].
      apply HasSuffix_true in H2 as [u ->].
      assert (HasSuffix (u +:+ "//") "/" = true) as Hc.
      { apply HasSuffix_true. exists (u +:+ "/"). now rewrite append_assoc. }
      congruence. }
    rewrite Hss. destruct (HasPrefix s "http") eqn:Hp.
    + rewrite Hs. split; [discriminate |]. intros [-> | [-> | H]]; discriminate.
    + destruct (string_snoc_cases s) as [-> | (u & c & ->)].
      * split; [auto | reflexivity].
      * rewrite HasSuffix_slash_append by (destruct u; discriminate).
        rewrite Hs. split; [discriminate |]. intros [H | [H | H]]; [| | discriminate].
        -- apply append_eq_empty in H as [_ H]. discriminate.
        -- rewrite H in Hs. discriminate.
Qed.

End ServerFacts.

(** ** The configuration cache *)

Section ConfigCache.
Context `{Ext : Externals}.

Lemma config_kept_refl (st : State) : configOnce st = true -> config_kept st st.
Proof. intros H. now repeat split. Qed.

Lemma config_kept_trans (a b c : State) :
  config_kept a b -> config_kept b c -> config_kept a c.
Proof.
  intros (_ & H1 & H2 & H3) (H0 & H4 & H5 & H6).
  repeat split; [exact H0 | congruence ..].
Qed.

Lemma keeps_ret {A} (a : A) : keeps_config (ret a).
Proof. intros st H. now apply config_kept_refl. Qed.

Lemma keeps_gets {A} (f : State -> A) : keeps_config (gets f).
Proof. intros st H. now apply config_kept_refl. Qed.

Lemma keeps_panic {A} (msg : string) : keeps_config (@panic _ A msg).
Proof. intros st H. now apply config_kept_refl. Qed.

Lemma keeps_bind {A B} (m : M A) (k : A -> M B) :
  keeps_config m -> (forall a, keeps_config (k a)) -> keeps_config (bind m k).
Proof.
  intros Hm Hk st H. specialize (Hm st H). unfold bind.
  destruct (m st) as [a st1 | f args st1 | msg st1]; simpl in *; try exact Hm.
  eapply config_kept_trans; [exact Hm |]. apply Hk. apply Hm.
Qed.

Lemma config_reads_emit (e : event) (st : State) :
  is_JsonRead e = false ->
  config_reads (set_trace (e :: trace st) st) = config_reads st.
Proof.
  intros He. unfold config_reads. simpl. rewrite filter_cons.
  destruct (decide (is_JsonRead e = true)); [congruence | reflexivity].
Qed.

Lemma keeps_emit (e : event) : is_JsonRead e = false -> keeps_config (emit e).
Proof.
  intros He st H. repeat split; simpl; try assumption.
  now apply config_reads_emit.
Qed.

(** A change of the fields other than the cache and the trace. *)
Lemma keeps_modify (f : State -> State) :
  (forall st, configOnce (f st) = configOnce st /\ config (f st) = config st /\
              parseConfigErr (f st) = parseConfigErr st /\ trace (f st) = trace st) ->
  keeps_config (modify f).
Proof.
  intros Hf st H. destruct (Hf st) as (H1 & H2 & H3 & H4).
  repeat split; simpl; try congruence. unfold config_reads. now rewrite H4.
Qed.

Lemma keeps_update_client (c : nat) (f : Client -> Client) :
  keeps_config (modify (update_client c f)).
Proof. apply keeps_modify. intros st. now repeat split. Qed.

Lemma keeps_set_fs (files : gmap string node) : keeps_config (modify (set_fs files)).
Proof. apply keeps_modify. intros st. now repeat split. Qed.

Lemma keeps_set_signerPublicKeyRef (r : option BlobRef) :
  keeps_config (modify (set_signerPublicKeyRef r)).
Proof. apply keeps_modify. intros st. now repeat split. Qed.

Lemma keeps_log_Printf (format : string) (args : list string) :
  keeps_config (log_Printf format args).
Proof. now apply keeps_emit. Qed.

Lemma keeps_log_Fatalf {A} (format : string) (args : list string) :
  keeps_config (@log_Fatalf _ A format args).
Proof.
  intros st H. repeat split; simpl; assumption.
Qed.

(** [configOnce.Do] does nothing once the [Once] is done, whatever [f]. *)
Lemma configOnce_Do_done (f : M unit) (st : State) :
  configOnce st = true -> configOnce_Do f st = Ret tt st.
Proof. intros H. unfold configOnce_Do, Once_Do. now rewrite H. Qed.

Lemma keeps_configOnce_Do (f : M unit) : keeps_config (configOnce_Do f).
Proof. intros st H. rewrite configOnce_Do_done by exact H. now apply config_kept_refl. Qed.

(** The other two [Once]s run a function that keeps the cache. *)
Lemma keeps_Once_Do (done : State -> bool) (mark : bool -> State -> State) (f : M unit) :
  (forall b, keeps_config (modify (mark b))) ->
  keeps_config f -> keeps_config (Once_Do done mark f).
Proof.
  intros Hmark Hf st H. unfold Once_Do. destruct (done st).
  - now apply config_kept_refl.
  - specialize (Hf st H).
    destruct (f st) as [a st1 | fm args st1 | msg st1]; simpl in *; try exact Hf;
      (eapply config_kept_trans; [exact Hf |]; apply (Hmark true st1), Hf).
Qed.

Lemma keeps_os_Stat (path : string) : keeps_config (os_Stat path).
Proof. apply keeps_bind; [now apply keeps_emit | intros; apply keeps_gets]. Qed.

Lemma keeps_os_Getenv (key : string) : keeps_config (os_Getenv key).
Proof. apply keeps_gets. Qed.

Lemma keeps_fileExists (name : string) : keeps_config (fileExists name).
Proof. apply keeps_bind; [apply keeps_os_Stat | intros; apply keeps_ret]. Qed.

Lemma keeps_EntityFromSecring (keyId keyRing : string) :
  keeps_config (jsonsign_EntityFromSecring keyId keyRing).
Proof. apply keeps_bind; [now apply keeps_emit | intros; apply keeps_gets]. Qed.

Lemma keeps_WriteFile (path data : string) : keeps_config (ioutil_WriteFile path data).
Proof.
  apply keeps_bind; [now apply keeps_emit | intros _].
  apply keeps_bind; [apply keeps_gets | intros st].
  destruct (bool_decide _); [apply keeps_ret |].
  destruct (fs st !! path) as [[]|];
    try apply keeps_ret;
    (apply keeps_bind; [apply keeps_set_fs | intros; apply keeps_ret]).
Qed.

Create HintDb keeps discriminated.
#[local] Hint Resolve keeps_ret keeps_gets keeps_panic keeps_update_client
  keeps_set_signerPublicKeyRef keeps_log_Printf keeps_log_Fatalf
  keeps_configOnce_Do keeps_os_Stat keeps_os_Getenv keeps_fileExists
  keeps_EntityFromSecring keeps_WriteFile : keeps.

(** Walks through a function of the model bind by bind and branch by
    branch. *)
Ltac keeps_step :=
  match goal with
  | |- keeps_config (bind _ _) => apply keeps_bind; [| intros ?]
  | |- keeps_config (if ?b then _ else _) => destruct b
  | |- keeps_config (match ?x with _ => _ end) => destruct x
  | |- keeps_config _ => solve [auto with keeps]
  end.

Lemma keeps_serverOrDie : keeps_config serverOrDie.
Proof. unfold serverOrDie. repeat keeps_step. Qed.

Lemma keeps_SetupAuthFromConfig (c : nat) (conf : Obj) :
  keeps_config (SetupAuthFromConfig c conf).
Proof. unfold SetupAuthFromConfig. repeat keeps_step. Qed.

Lemma keeps_SetupAuth (c : nat) : keeps_config (SetupAuth c).
Proof.
  unfold SetupAuth. repeat keeps_step. apply keeps_SetupAuthFromConfig.
Qed.

Lemma keeps_SecretRingFile (c : nat) : keeps_config (SecretRingFile c).
Proof. unfold SecretRingFile. repeat keeps_step. Qed.

Lemma keeps_publishSignerPublicKey (keyId keyRing : string) :
  keeps_config (publishSignerPublicKey keyId keyRing).
Proof. unfold publishSignerPublicKey. repeat keeps_step. Qed.

Lemma keeps_getSignerPublicKeyBlobref : keeps_config getSignerPublicKeyBlobref.
Proof.
  unfold getSignerPublicKeyBlobref.
  repeat first [apply keeps_publishSignerPublicKey | keeps_step].
Qed.

Lemma keeps_SignerPublicKeyBlobref : keeps_config SignerPublicKeyBlobref.
Proof.
  unfold SignerPublicKeyBlobref, signerPublicKeyRefOnce_Do, initSignerPublicKeyBlobref.
  apply keeps_bind; [| intros; apply keeps_gets].
  apply keeps_Once_Do.
  - intros b. apply keeps_modify. intros st. now repeat split.
  - apply keeps_bind; [apply keeps_getSignerPublicKeyBlobref | intros; auto with keeps].
Qed.

Lemma keeps_initTrustedCerts_loop (c : nat) (val : list jvalue) :
  keeps_config (initTrustedCerts_loop c val).
Proof.
  induction val as [|v rest IH]; simpl; [apply keeps_ret |].
  destruct v; try apply keeps_log_Printf.
  apply keeps_bind; [apply keeps_update_client | intros; exact IH].
Qed.

Lemma keeps_initTrustedCerts (c : nat) : keeps_config (initTrustedCerts c).
Proof.
  unfold initTrustedCerts.
  repeat first [apply keeps_initTrustedCerts_loop | keeps_step].
Qed.

Lemma keeps_GetTrustedCerts (c : nat) : keeps_config (GetTrustedCerts c).
Proof.
  unfold GetTrustedCerts, initTrustedCertsOnce_Do.
  apply keeps_bind; [| intros; apply keeps_gets].
  apply keeps_Once_Do; [| apply keeps_initTrustedCerts].
  intros b. apply keeps_modify. intros st. now repeat split.
Qed.

(** A call that comes back went no further than [final]. *)
Lemma after_final {A} (o : outcome A) (st' : State) : after o = Some st' -> final o = st'.
Proof. destruct o; simpl; congruence. Qed.

Lemma step_keeps (st st' : State) :
  configOnce st = true -> step st st' -> config_kept st st'.
Proof.
  intros H Hs. destruct Hs as [r st st' Hcall | files st].
  - destruct r; simpl in Hcall; apply after_final in Hcall; subst st'.
    + now apply keeps_serverOrDie.
    + now apply keeps_SetupAuth.
    + now apply keeps_SecretRingFile.
    + now apply keeps_SignerPublicKeyBlobref.
    + now apply keeps_GetTrustedCerts.
  - now repeat split.
Qed.

End ConfigCache.

Section ConfigCacheClaims.
Context `{Ext : Externals}.

(** The first [configOnce.Do(parseConfig)] that returns marks the
    configuration as loaded. *)
Lemma configOnce_Do_loads (st st' : State) :
  configOnce_Do parseConfig st = Ret tt st' -> configOnce st' = true.
Proof.
  unfold configOnce_Do, Once_Do. destruct (configOnce st) eqn:Hd.
  - intros [= <-]. exact Hd.
  - destruct (parseConfig st); intros [= <-]. reflexivity.
Qed.

(** C1. Once the configuration has been loaded, it is never loaded again
    in the life of the process: after any number of later resolutions
    (server, auth, secret ring, identity, trusted certificates) and of
    changes of the files on disk, the cached mapping and the recorded
    load error are the ones of the first load, and [jsonconfig.ReadFile]
    has not been called again. *)
Theorem config_never_reloaded (st st' : State) :
  configOnce st = true ->
  rtc step st st' ->
  configOnce st' = true /\
  config st' = config st /\
  parseConfigErr st' = parseConfigErr st /\
  config_reads st' = config_reads st.
Proof.
  intros H Hsteps. change (config_kept st st').
  induction Hsteps as [st | st st1 st' Hstep _ IH].
  - now apply config_kept_refl.
  - pose proof (step_keeps st st1 H Hstep) as Hk.
    eapply config_kept_trans; [exact Hk |]. apply IH. apply Hk.
Qed.

End ConfigCacheClaims.

(** A process loads its configuration while resolving the server, the
    configuration file is then emptied on disk, and the trusted
    certificates are resolved: the configuration is the one first loaded. *)
Lemma config_never_reloaded_witness :
  let obj : Obj := {[ "server" := JStr "example.com" ]} in
  let st := final (@serverOrDie (Demo.ext obj) (Demo.start obj None ∅ ∅)) in
  let st' := final (GetTrustedCerts 0 (set_fs ∅ st)) in
  configOnce st' = true /\
  config st' = config st /\
  parseConfigErr st' = parseConfigErr st /\
  config_reads st' = config_reads st.
Proof.
  intros obj st st'. apply config_never_reloaded; [reflexivity |].
  eapply rtc_l; [apply step_disk |].
  eapply rtc_l; [| apply rtc_refl].
  apply (step_call (CallGetTrustedCerts 0)). reflexivity.
Defined.

(** ** Server resolution *)

Section ServerClaims.
Context `{Ext : Externals}.

Lemma explicit_flag_Some (st : State) (s : string) :
  flagServer st = Some s -> s <> EmptyString -> explicit_flag st = Some s.
Proof.
  intros Hf Hs. unfold explicit_flag. rewrite Hf.
  destruct (String.eqb s EmptyString) eqn:He; [| reflexivity].
  now apply String.eqb_eq in He.
Qed.

(** With the flag set, the flag is normalized and nothing else happens. *)
Lemma serverOrDie_flag (st : State) (s : string) :
  explicit_flag st = Some s -> serverOrDie st = Ret (cleanServer s) st.
Proof. intros H. unfold serverOrDie, bind, gets. now rewrite H. Qed.

(** Without the flag, the three ways [serverOrDie] ends, by what the
    loaded configuration has under the key. *)
Lemma serverOrDie_config (st st1 : State) :
  explicit_flag st = None ->
  configOnce_Do parseConfig st = Ret tt st1 ->
  serverOrDie st =
    match config st1 !! "server" with
    | None =>
        let format := "Missing or invalid " +:+ dq +:+ "server" +:+ dq +:+ " in %q" in
        Fatal format [ConfigFilePath]
              (set_trace (EvLog format [ConfigFilePath] :: trace st1) st1)
    | Some (JStr s) => Ret (cleanServer s) st1
    | Some v =>
        Panic ("interface conversion: interface {} is " +:+ typeName v +:+ ", not string") st1
    end.
Proof.
  intros Hf Hload. unfold serverOrDie, bind, gets at 1. rewrite Hf, Hload.
  unfold gets. destruct (config st1 !! "server") as [v|]; [| reflexivity].
  destruct v; try reflexivity.
  unfold ret. simpl.
  destruct (String.eqb (cleanServer s) EmptyString) eqn:He; [| reflexivity].
  apply String.eqb_eq in He. now apply cleanServer_nonempty in He.
Qed.

(** X23. What the test of line 82 gives: a server string that does not
    begin with the bytes [http] is normalized to a value that starts with
    [https://]; of an input with a trailing slash exactly one slash is
    stripped, the rest being kept as it is, behind [https://] when it does
    not begin with [http]; and this normalized value is what server
    resolution returns, for the flag and for the configured server. *)
Theorem cleanServer_scheme_and_slash (s : string) :
  (HasPrefix s "http" = false -> HasPrefix (cleanServer s) "https://" = true) /\
  (forall t, s = t +:+ "/" ->
     cleanServer s = if HasPrefix t "http" then t else "https://" +:+ t) /\
  (forall st, flagServer st = Some s -> s <> EmptyString ->
     serverOrDie st = Ret (cleanServer s) st) /\
  (forall st st1, explicit_flag st = None ->
     configOnce_Do parseConfig st = Ret tt st1 ->
     config st1 !! "server" = Some (JStr s) ->
     serverOrDie st = Ret (cleanServer s) st1).
Proof.
  repeat split.
  - intros Hp. rewrite cleanServer_steps. cbv zeta.
    assert (forall t u, s = t +:+ u -> HasPrefix t "http" = false) as Hsub.
    { intros t u ->. destruct (HasPrefix t "http") eqn:Ht; [| reflexivity].
      apply HasPrefix_true in Ht as [w ->].
      rewrite <- Hp. symmetry. apply HasPrefix_true. exists (w +:+ u).
      now rewrite append_assoc. }
    destruct (HasSuffix s "/") eqn:Hs.
    + apply HasSuffix_true in Hs as [t Ht].
      rewrite Ht at 1 2. rewrite (slice_drop_last t "/").
      rewrite (Hsub t "/" Ht). apply HasPrefix_true. eauto.
    + rewrite Hp. apply HasPrefix_true. eauto.
  - intros t ->. apply cleanServer_slash.
  - intros st Hf Hs. apply serverOrDie_flag. now apply explicit_flag_Some.
  - intros st st1 Hf Hload Hv. rewrite (serverOrDie_config st st1 Hf Hload). now rewrite Hv.
Qed.

(** C10. Without a server override, a loaded configuration whose
    [server] value is not a string makes the unchecked assertion
    [value.(string)] panic: no value is returned and the diagnostic of
    [log.Fatalf] is not reached. *)
Theorem serverOrDie_nonstring_panics (st st1 : State) (v : jvalue) :
  explicit_flag st = None ->
  configOnce_Do parseConfig st = Ret tt st1 ->
  config st1 !! "server" = Some v ->
  is_JStr v = false ->
  serverOrDie st =
    Panic ("interface conversion: interface {} is " +:+ typeName v +:+ ", not string") st1.
Proof.
  intros Hf Hload Hv Hns. rewrite (serverOrDie_config st st1 Hf Hload), Hv.
  destruct v; try reflexivity. discriminate.
Qed.

(** Without a server override and without the key, the process exits
    with the diagnostic that names the configuration file. *)
Lemma serverOrDie_missing_fatal (st st1 : State) :
  explicit_flag st = None ->
  configOnce_Do parseConfig st = Ret tt st1 ->
  config st1 !! "server" = None ->
  exists st2,
    serverOrDie st =
      Fatal ("Missing or invalid " +:+ dq +:+ "server" +:+ dq +:+ " in %q") [ConfigFilePath] st2.
Proof.
  intros Hf Hload Hv. rewrite (serverOrDie_config st st1 Hf Hload), Hv. eauto.
Qed.

(** The normalization of the empty string and of a lone slash. *)
Lemma cleanServer_empty : cleanServer EmptyString = "https://".
Proof. reflexivity. Qed.

(** C3, amended. The normalization is idempotent exactly on the inputs
    that are not empty, are not the lone slash and do not end in two
    slashes; on the others the second pass strips one more slash. *)
Theorem cleanServer_idempotent_iff (s : string) :
  cleanServer (cleanServer s) = cleanServer s <->
  s <> EmptyString /\ s <> "/" /\ HasSuffix s "//" = false.
Proof.
  pose proof (cleanServer_ends_slash s) as Hends.
  pose proof (cleanServer_has_scheme s) as Hscheme.
  destruct (HasSuffix (cleanServer s) "/") eqn:Hr.
  - split.
    + intros Hidem. exfalso.
      apply HasSuffix_true in Hr as [t Ht]. rewrite Ht in Hidem.
      rewrite cleanServer_slash in Hidem.
      apply (f_equal String.length) in Hidem.
      destruct (HasPrefix t "http"); rewrite !length_append in Hidem; simpl in Hidem; lia.
    + intros (H1 & H2 & H3). destruct Hends as [Hends _].
      destruct (Hends eq_refl) as [? | [? | ?]]; congruence.
  - split.
    + intros _. destruct Hends as [_ Hends].
      repeat split.
      * intros ->. now specialize (Hends (or_introl eq_refl)).
      * intros ->. now specialize (Hends (or_intror (or_introl eq_refl))).
      * destruct (HasSuffix s "//") eqn:H2; [| reflexivity].
        now specialize (Hends (or_intror (or_intror eq_refl))).
    + intros _. rewrite (cleanServer_no_slash _ Hr). now rewrite Hscheme.
Qed.

End ServerClaims.

(** C3 as first stated fails: the second pass over the normal form of
    [a//] strips the slash that the first pass left. *)
Lemma cleanServer_not_idempotent :
  ~ (forall s : string, cleanServer (cleanServer s) = cleanServer s).
Proof. intros H. specialize (H "a//"). vm_compute in H. discriminate. Qed.

Lemma cleanServer_idempotent_iff_witness :
  cleanServer (cleanServer "example.com:1345/") = cleanServer "example.com:1345/".
Proof.
  apply cleanServer_idempotent_iff. repeat split; discriminate.
Defined.

Lemma cleanServer_scheme_and_slash_witness :
  let s := "example.com/" in
  let obj : Obj := {[ "server" := JStr s ]} in
  let st := Demo.start obj (Some s) ∅ ∅ in
  let st0 := Demo.start obj None ∅ ∅ in
  HasPrefix (cleanServer s) "https://" = true /\
  cleanServer s = "https://example.com" /\
  @serverOrDie (Demo.ext obj) st = Ret "https://example.com" st /\
  serverOrDie st0 = Ret "https://example.com" (final (configOnce_Do parseConfig st0)).
Proof.
  intros s obj st st0.
  destruct (@cleanServer_scheme_and_slash (Demo.ext obj) s) as (H1 & H2 & H3 & H4).
  split; [apply H1; reflexivity |].
  split; [apply (H2 "example.com"); reflexivity |].
  split; [apply (H3 st); [reflexivity | discriminate] |].
  apply (H4 st0); vm_compute; reflexivity.
Defined.

(** C4 at the server [httpbin.org:3179]: a host given without a scheme,
    whose name begins with the letters [http].  The test of line 82 takes
    those letters for a scheme, so nothing is put in front: the value
    comes back as it was given, from the flag and from the configuration
    alike, and does not start with [https://]. *)
Lemma serverOrDie_http_host_gets_no_scheme :
  let s := "httpbin.org:3179" in
  let obj : Obj := {[ "server" := JStr s ]} in
  let st := Demo.start obj (Some s) ∅ ∅ in
  let st0 := Demo.start obj None ∅ ∅ in
  HasPrefix s "http://" = false /\
  HasPrefix s "https://" = false /\
  cleanServer s = s /\
  HasPrefix (cleanServer s) "https://" = false /\
  @serverOrDie (Demo.ext obj) st = Ret s st /\
  serverOrDie st0 = Ret s (final (configOnce_Do parseConfig st0)).
Proof. vm_compute. repeat split. Qed.

(** A fresh process whose configuration file has the number 8080 under
    [server]. *)
Lemma serverOrDie_nonstring_panics_witness :
  let obj : Obj := {[ "server" := JNum 8080 ]} in
  let st := Demo.start obj None ∅ ∅ in
  @serverOrDie (Demo.ext obj) st =
    Panic "interface conversion: interface {} is float64, not string"
          (final (configOnce_Do parseConfig st)).
Proof.
  intros obj st.
  apply (@serverOrDie_nonstring_panics (Demo.ext obj) st _ (JNum 8080));
    vm_compute; reflexivity.
Defined.

(** C2 at the configuration whose [server] is the empty string: the
    process does not exit, it returns the bare scheme. *)
Lemma serverOrDie_empty_server_returns :
  let obj : Obj := {[ "server" := JStr EmptyString ]} in
  let st := Demo.start obj None ∅ ∅ in
  @serverOrDie (Demo.ext obj) st = Ret "https://" (final (configOnce_Do parseConfig st)).
Proof. vm_compute. reflexivity. Qed.

(** ** Auth resolution *)

Section AuthClaims.
Context `{Ext : Externals}.

(** C5. With a non-empty server override, [SetupAuth] takes the auth mode
    from the environment alone: two processes with the same flag and the
    same environment, whatever their configurations (with or without an
    [auth] key, loaded or not) and files, get the same error and the same
    auth mode; the configuration is neither loaded nor read; and when the
    environment has no auth, the error is [auth.ErrNoAuth] and the one
    event is the logged warning. *)
Theorem SetupAuth_explicit_ignores_config (c : nat) (st1 st2 : State) (s : string) :
  flagServer st1 = Some s -> s <> EmptyString ->
  flagServer st2 = flagServer st1 -> env st2 = env st1 ->
  let mode := fst (auth_FromEnv (env st1)) in
  let err := snd (auth_FromEnv (env st1)) in
  let warning :=
    if is_ErrNoAuth err
    then [EvLog "Using explicit --server parameter; not using config file auth, and no auth mode set in environment" []]
    else [] in
  exists st1' st2',
    SetupAuth c st1 = Ret err st1' /\
    SetupAuth c st2 = Ret err st2' /\
    authMode (client_of st1' c) = mode /\
    authMode (client_of st2' c) = mode /\
    configOnce st1' = configOnce st1 /\ config st1' = config st1 /\
    configOnce st2' = configOnce st2 /\ config st2' = config st2 /\
    trace st1' = (warning ++ trace st1)%list /\
    trace st2' = (warning ++ trace st2)%list.
Proof.
  intros Hf Hs Hf2 He mode err warning.
  pose proof (explicit_flag_Some st1 s Hf Hs) as Hx1.
  assert (explicit_flag st2 = Some s) as Hx2.
  { apply explicit_flag_Some; congruence. }
  unfold SetupAuth, bind, gets, modify, log_Printf, emit, modify, ret.
  rewrite Hx1, Hx2, He. fold err mode. subst warning.
  destruct (is_ErrNoAuth err); do 2 eexists;
    (split; [reflexivity |]); (split; [reflexivity |]);
    unfold client_of, update_client; simpl; rewrite !lookup_insert_eq; simpl;
    repeat split.
Qed.

End AuthClaims.

(** An explicit server and no auth in the environment: the process whose
    configuration has an [auth] key and the one with no configuration get
    the same [ErrNoAuth] and no auth mode. *)
Lemma SetupAuth_explicit_ignores_config_witness :
  let obj : Obj := {[ "auth" := JStr "userpass:alice:secret" ]} in
  let st1 := set_config obj (set_configOnce true
               (@initState (Demo.ext obj) (Some "friend.example.com") ∅ ∅ ∅)) in
  let st2 := @initState (Demo.ext obj) (Some "friend.example.com") ∅ ∅ ∅ in
  exists st1' st2',
    SetupAuth 0 st1 = Ret (Some ErrNoAuth) st1' /\
    SetupAuth 0 st2 = Ret (Some ErrNoAuth) st2' /\
    authMode (client_of st1' 0) = None /\
    authMode (client_of st2' 0) = None.
Proof.
  intros obj st1 st2.
  destruct (@SetupAuth_explicit_ignores_config (Demo.ext obj) 0 st1 st2 "friend.example.com")
    as (st1' & st2' & H1 & H2 & H3 & H4 & _); [reflexivity | discriminate | reflexivity ..|].
  exists st1', st2'. repeat split; assumption.
Defined.

(** ** Trusted certificates *)

Section TrustFacts.
Context `{Ext : Externals}.

Lemma lower_byte_idempotent (c : ascii) : lower_byte (lower_byte c) = lower_byte c.
Proof. destruct c as [[] [] [] [] [] [] [] []]; reflexivity. Qed.

Lemma ToLower_idempotent (s : string) : lowercased (ToLower s).
Proof.
  unfold lowercased. induction s as [|c s IH]; simpl; [reflexivity |].
  now rewrite lower_byte_idempotent, IH.
Qed.

(** Loading the configuration leaves the [Client] objects, the
    environment, the files and the other two [Once]s alone. *)
Lemma configOnce_Do_parseConfig_frame (st st1 : State) :
  configOnce_Do parseConfig st = Ret tt st1 ->
  clients st1 = clients st /\ env st1 = env st /\ fs st1 = fs st /\
  flagServer st1 = flagServer st /\ unwritable st1 = unwritable st /\
  initTrustedCertsOnce st1 = initTrustedCertsOnce st /\
  signerPublicKeyRefOnce st1 = signerPublicKeyRefOnce st /\
  signerPublicKeyRef st1 = signerPublicKeyRef st /\
  file_writes st1 = file_writes st.
Proof.
  unfold configOnce_Do, Once_Do, parseConfig, bind, os_Stat, jsonconfig_ReadFile,
    log_Fatal, log_Fatalf, emit, modify, gets, bind.
  destruct (configOnce st); [intros [= <-]; now repeat split |].
  simpl. destruct (fs st !! ConfigFilePath) as [[data|]|] eqn:Hfs; simpl; rewrite ?Hfs.
  - destruct (jsonconfig_parse data); [| discriminate].
    intros [= <-]. now repeat split.
  - discriminate.
  - intros [= <-]. now repeat split.
Qed.

(** What the loop of lines 254-261 does to the trust set and to the log:
    the lower-cased strings in front of the first element that is not a
    string are appended, and that element, if there is one, is logged. *)
Lemma initTrustedCerts_loop_spec (c : nat) (val : list jvalue) (st : State) :
  exists st',
    initTrustedCerts_loop c val st = Ret tt st' /\
    trustedCerts (client_of st' c)
    = (trustedCerts (client_of st c) ++ map ToLower (leading_strings val))%list /\
    trace st'
    = (match first_nonstring val with
       | Some v => [EvLog "trustedCert: was expecting a string, got %T" [typeName v]]
       | None => []
       end ++ trace st)%list /\
    config st' = config st /\ configOnce st' = configOnce st.
Proof.
  revert st. induction val as [|v rest IH]; intros st.
  - exists st. simpl. rewrite app_nil_r. now repeat split.
  - destruct v;
      try (eexists; split; [reflexivity |]; simpl; rewrite app_nil_r; now repeat split).
    simpl. unfold bind, modify.
    destruct (IH (update_client c
                (fun cl => set_trustedCerts (trustedCerts cl ++ [ToLower s]) cl) st))
      as (st' & Hrun & Hcerts & Htrace & Hcfg & Honce).
    exists st'. split; [exact Hrun |].
    split; [| now repeat split].
    rewrite Hcerts. unfold client_of at 1, update_client. simpl.
    rewrite lookup_insert_eq. simpl. now rewrite <- app_assoc.
Qed.

(** With [CAMLI_TRUSTED_CERT] set, the trust set is that value alone, as
    it was given; the configuration is not consulted. *)
Lemma initTrustedCerts_env (c : nat) (st : State) (e : string) :
  env st !! "CAMLI_TRUSTED_CERT" = Some e -> e <> EmptyString ->
  initTrustedCerts c st = Ret tt (update_client c (set_trustedCerts [e]) st).
Proof.
  intros He Hne. unfold initTrustedCerts, bind, os_Getenv, gets. rewrite He. simpl.
  destruct (String.eqb e EmptyString) eqn:Heq; [| reflexivity].
  now apply String.eqb_eq in Heq.
Qed.

(** Without the variable, the trust set comes from the list under
    [trustedCerts], cut at the first element that is not a string. *)
Lemma initTrustedCerts_config (c : nat) (st st1 : State) (val : list jvalue) :
  default EmptyString (env st !! "CAMLI_TRUSTED_CERT") = EmptyString ->
  configOnce_Do parseConfig (update_client c (set_trustedCerts []) st) = Ret tt st1 ->
  config st1 !! trustedCertsKey = Some (JArr val) ->
  exists st2,
    initTrustedCerts c st = Ret tt st2 /\
    trustedCerts (client_of st2 c) = map ToLower (leading_strings val) /\
    trace st2
    = (match first_nonstring val with
       | Some v => [EvLog "trustedCert: was expecting a string, got %T" [typeName v]]
       | None => []
       end ++ trace st1)%list.
Proof.
  intros He Hload Hval.
  destruct (initTrustedCerts_loop_spec c val st1) as (st2 & Hrun & Hcerts & Htrace & _).
  exists st2. split; [| split; [| exact Htrace]].
  - unfold initTrustedCerts, bind, os_Getenv, gets, modify. rewrite He. simpl.
    rewrite Hload, Hval. exact Hrun.
  - rewrite Hcerts.
    apply configOnce_Do_parseConfig_frame in Hload as (Hcl & _).
    unfold client_of at 1. rewrite Hcl. unfold update_client. simpl.
    now rewrite lookup_insert_eq.
Qed.

(** Every fingerprint taken from the configuration is lower-cased. *)
Lemma initTrustedCerts_config_lowercased (c : nat) (st st1 : State) (val : list jvalue) :
  default EmptyString (env st !! "CAMLI_TRUSTED_CERT") = EmptyString ->
  configOnce_Do parseConfig (update_client c (set_trustedCerts []) st) = Ret tt st1 ->
  config st1 !! trustedCertsKey = Some (JArr val) ->
  Forall lowercased (trustedCerts (client_of (final (initTrustedCerts c st)) c)).
Proof.
  intros He Hload Hval.
  destruct (initTrustedCerts_config c st st1 val He Hload Hval) as (st2 & Hrun & Hcerts & _).
  rewrite Hrun. simpl. rewrite Hcerts. apply Forall_forall. intros x Hx. apply list_elem_of_In, in_map_iff in Hx as (y & <- & _).
  apply ToLower_idempotent.
Qed.

(** Once the package-level [initTrustedCertsOnce] is done, [GetTrustedCerts]
    computes nothing, for any [Client]. *)
Lemma GetTrustedCerts_done (c : nat) (st : State) :
  initTrustedCertsOnce st = true ->
  GetTrustedCerts c st = Ret (trustedCerts (client_of st c)) st.
Proof.
  intros H. unfold GetTrustedCerts, initTrustedCertsOnce_Do, Once_Do, bind, gets.
  now rewrite H.
Qed.

Lemma leading_strings_length (val : list jvalue) (v : jvalue) :
  first_nonstring val = Some v -> length (leading_strings val) < length val.
Proof.
  induction val as [|x rest IH]; [discriminate |].
  destruct x; simpl; try lia. intros H. specialize (IH H). lia.
Qed.

End TrustFacts.

Section TrustClaims.
Context `{Ext : Externals}.

(** C8, amended. Without the environment variable, when the list under
    [trustedCerts] has an element that is not a string, trust resolution
    logs the type mismatch for the first such element and stops there: the
    elements after it are abandoned, and the trust set keeps exactly the
    lower-cased strings that came before it. *)
Theorem initTrustedCerts_stops_at_nonstring
    (c : nat) (st st1 : State) (val : list jvalue) (v : jvalue) :
  default EmptyString (env st !! "CAMLI_TRUSTED_CERT") = EmptyString ->
  configOnce_Do parseConfig (update_client c (set_trustedCerts []) st) = Ret tt st1 ->
  config st1 !! trustedCertsKey = Some (JArr val) ->
  first_nonstring val = Some v ->
  exists st2,
    initTrustedCerts c st = Ret tt st2 /\
    trustedCerts (client_of st2 c) = map ToLower (leading_strings val) /\
    length (trustedCerts (client_of st2 c)) < length val /\
    trace st2
    = EvLog "trustedCert: was expecting a string, got %T" [typeName v] :: trace st1.
Proof.
  intros He Hload Hval Hv.
  destruct (initTrustedCerts_config c st st1 val He Hload Hval) as (st2 & Hrun & Hcerts & Htrace).
  exists st2. rewrite Hv in Htrace. repeat split; try assumption.
  rewrite Hcerts, length_map. now apply leading_strings_length with v.
Qed.

End TrustClaims.

(** A list with a number in the middle: the certificate before the
    number is kept, the one after it is lost. *)
Lemma initTrustedCerts_stops_at_nonstring_witness :
  let val := [JStr "ABC123"; JNum 5; JStr "DEF"] in
  let obj : Obj := {[ "trustedCerts" := JArr val ]} in
  let st := Demo.start obj None ∅ ∅ in
  exists st2,
    @initTrustedCerts (Demo.ext obj) 0 st = Ret tt st2 /\
    trustedCerts (client_of st2 0) = ["abc123"].
Proof.
  intros val obj st.
  destruct (@initTrustedCerts_stops_at_nonstring (Demo.ext obj) 0 st
              (final (configOnce_Do parseConfig (update_client 0 (set_trustedCerts []) st)))
              val (JNum 5))
    as (st2 & Hrun & Hcerts & _); [vm_compute; reflexivity .. |].
  exists st2. split; [exact Hrun | exact Hcerts].
Defined.

(** C8 as first stated fails: with a number after the first certificate,
    the trust set that comes out is partially populated. *)
Lemma trustedCerts_partially_populated :
  let val := [JStr "ABC123"; JNum 5; JStr "DEF"] in
  let obj : Obj := {[ "trustedCerts" := JArr val ]} in
  let certs :=
    trustedCerts (client_of (final (@GetTrustedCerts (Demo.ext obj) 0
                                      (Demo.start obj None ∅ ∅))) 0) in
  certs = ["abc123"] /\ partially_populated val certs.
Proof.
  intros val obj certs.
  assert (certs = ["abc123"]) as -> by reflexivity.
  split; [reflexivity |]. split; [discriminate | simpl; lia].
Qed.

(** C7 at [CAMLI_TRUSTED_CERT=ABC123]: the trust set is the value as it
    was given, which is not its lower-cased form. *)
Lemma GetTrustedCerts_env_not_lowercased :
  let st := Demo.start ∅ None {[ "CAMLI_TRUSTED_CERT" := "ABC123" ]} ∅ in
  @GetTrustedCerts (Demo.ext ∅) 0 st = Ret ["ABC123"] (final (GetTrustedCerts 0 st)) /\
  ToLower "ABC123" = "abc123" /\
  ~ Forall lowercased ["ABC123"].
Proof.
  intros st. split; [reflexivity |]. split; [reflexivity |].
  intros H. apply Forall_cons in H as [H _]. discriminate H.
Qed.

(** C9 with two [Client]s in one process: the first call computes the
    trust set of the first [Client] and uses up the package-level [Once];
    the first call on the second [Client] computes nothing and returns its
    nil slice. *)
Lemma GetTrustedCerts_second_client_empty :
  let st := Demo.start ∅ None {[ "CAMLI_TRUSTED_CERT" := "abc123" ]} ∅ in
  let both := do first <- GetTrustedCerts 0 ;
              do second <- GetTrustedCerts 1 ;
              ret (first, second) in
  exists st', both st = Ret (["abc123"], []) st' /\
              initTrustedCerts 1 st = Ret tt (update_client 1 (set_trustedCerts ["abc123"]) st).
Proof.
  intros st both. eexists. split; reflexivity.
Qed.

(** ** The signer's public key *)

Section SignerFacts.
Context `{Ext : Externals}.

Lemma file_writes_emit (e : event) (st : State) :
  file_writes (set_trace (e :: trace st) st)
  = if is_Write e then S (file_writes st) else file_writes st.
Proof.
  unfold file_writes. simpl. rewrite filter_cons.
  destruct (is_Write e); simpl; [| reflexivity].
  destruct (decide (true = true)); [reflexivity | congruence].
Qed.

(** What a successful run of lines 194-228 tells about the state it
    started from and the state it left. *)
Lemma publishSignerPublicKey_inv (keyId keyRing : string) (st st1 : State) (br : BlobRef) :
  publishSignerPublicKey keyId keyRing st = Ret (Some br) st1 ->
  exists data entity armored dir,
    fs st !! keyRing = Some (File data) /\
    secring_lookup keyId data = inl entity /\
    ArmoredPublicKey entity = inl armored /\
    as_string (config st !! "selfPubKeyDir") = Some dir /\
    fs st !! dir = Some Dir /\
    br = SHA1FromString armored /\
    config st1 = config st /\ configOnce st1 = configOnce st /\
    unwritable st1 = unwritable st /\
    let pubFile := Join dir (BlobRef_String br +:+ ".camli") in
    (is_Some (fs st !! pubFile) /\ fs st1 = fs st /\ file_writes st1 = file_writes st
     \/
     fs st !! pubFile = None /\ fs st1 = <[pubFile := File armored]> (fs st) /\
     file_writes st1 = S (file_writes st)).
Proof.
  unfold publishSignerPublicKey, jsonsign_EntityFromSecring, os_Stat,
    ioutil_WriteFile, log_Printf, emit, modify, gets, ret, bind, id. simpl.
  destruct (fs st !! keyRing) as [[data|]|] eqn:Hring; simpl; try discriminate.
  destruct (secring_lookup keyId data) as [entity|] eqn:Hent; simpl; try discriminate.
  destruct (ArmoredPublicKey entity) as [armored|] eqn:Harm; simpl; try discriminate.
  destruct (as_string (config st !! "selfPubKeyDir")) as [dir|] eqn:Hdir; simpl;
    try discriminate.
  destruct (fs st !! dir) as [[|]|] eqn:Hfi; simpl; try discriminate.
  destruct (fs st !! Join dir (BlobRef_String (SHA1FromString armored) +:+ ".camli"))
    as [fi|] eqn:Hpub; simpl.
  - intros [= <- <-]. exists data, entity, armored, dir.
    repeat (split; [first [reflexivity | assumption] |]).
    left. rewrite Hpub. split; [eauto |]. split; [reflexivity |].
    unfold file_writes. simpl. rewrite !filter_cons. simpl.
    repeat (destruct (decide _); try congruence); reflexivity.
  - destruct (bool_decide _); simpl; try discriminate.
    rewrite Hpub. simpl. intros [= <- <-]. exists data, entity, armored, dir.
    repeat (split; [first [reflexivity | assumption] |]).
    right. rewrite Hpub. split; [reflexivity |]. split; [reflexivity |].
    unfold file_writes. simpl. rewrite !filter_cons. simpl.
    repeat (destruct (decide _); try congruence); reflexivity.
Qed.

(** Lines 194-228 on a state where the blob is already published: the
    address is returned and nothing is written. *)
Lemma publishSignerPublicKey_published
    (keyId keyRing : string) (st : State) (data : string) (entity : Entity)
    (armored dir : string) :
  fs st !! keyRing = Some (File data) ->
  secring_lookup keyId data = inl entity ->
  ArmoredPublicKey entity = inl armored ->
  as_string (config st !! "selfPubKeyDir") = Some dir ->
  fs st !! dir = Some Dir ->
  is_Some (fs st !! Join dir (BlobRef_String (SHA1FromString armored) +:+ ".camli")) ->
  exists st1,
    publishSignerPublicKey keyId keyRing st = Ret (Some (SHA1FromString armored)) st1 /\
    fs st1 = fs st /\ file_writes st1 = file_writes st.
Proof.
  intros Hring Hent Harm Hdir Hfi [fi Hpub].
  unfold publishSignerPublicKey, jsonsign_EntityFromSecring, os_Stat,
    ioutil_WriteFile, log_Printf, emit, modify, gets, ret, bind, id. simpl.
  rewrite Hring. simpl. rewrite Hent. simpl. rewrite Harm. simpl.
  rewrite Hdir. simpl. rewrite Hfi. simpl. rewrite Hpub.
  eexists. split; [reflexivity |]. split; [reflexivity |].
  unfold file_writes. simpl. rewrite !filter_cons. simpl.
  repeat (destruct (decide _); try congruence); reflexivity.
Qed.

(** [getSignerPublicKeyBlobref] once the configuration is loaded and has
    a key id: the choice of the ring, then lines 194-228. *)
Lemma getSignerPublicKeyBlobref_steps (st stc : State) (keyId : string) :
  configOnce_Do parseConfig st = Ret tt stc ->
  as_string (config stc !! "keyId") = Some keyId ->
  getSignerPublicKeyBlobref st =
    match as_string (config stc !! "secretRing") with
    | Some keyRing => publishSignerPublicKey keyId keyRing stc
    | None =>
        let s1 := set_trace (EvStat IdentitySecretRing :: trace stc) stc in
        if bool_decide (is_Some (fs stc !! IdentitySecretRing))
        then publishSignerPublicKey keyId IdentitySecretRing s1
        else
          let s2 := set_trace (EvStat DefaultSecRingPath :: trace s1) s1 in
          if bool_decide (is_Some (fs stc !! DefaultSecRingPath))
          then publishSignerPublicKey keyId DefaultSecRingPath s2
          else Ret None
                 (set_trace (EvLog "Couldn't find keyId %q; no 'secretRing' specified in config file, and no standard secret ring files exist." [] :: trace s2) s2)
    end.
Proof.
  intros Hload Hkey.
  unfold getSignerPublicKeyBlobref, fileExists, os_Stat, log_Printf, emit, modify,
    gets, ret, bind.
  rewrite Hload, Hkey.
  destruct (as_string (config stc !! "secretRing")); [reflexivity |]. simpl.
  destruct (bool_decide (is_Some (fs stc !! IdentitySecretRing))); [reflexivity |].
  simpl.
  destruct (bool_decide (is_Some (fs stc !! DefaultSecRingPath))); reflexivity.
Qed.

(** A run that returns an address went through a load of the
    configuration that returned and found a key id. *)
Lemma getSignerPublicKeyBlobref_loaded (st st1 : State) (br : BlobRef) :
  getSignerPublicKeyBlobref st = Ret (Some br) st1 ->
  exists stc keyId,
    configOnce_Do parseConfig st = Ret tt stc /\
    as_string (config stc !! "keyId") = Some keyId.
Proof.
  unfold getSignerPublicKeyBlobref, log_Printf, emit, modify, gets, ret, bind.
  destruct (configOnce_Do parseConfig st) as [[] stc | |];
    try (intros H; discriminate H).
  destruct (as_string (config stc !! "keyId")) as [keyId|] eqn:Hkey;
    [eauto | intros H; discriminate H].
Qed.

End SignerFacts.

Section SignerClaims.
Context `{Ext : Externals}.

(** The process-wide entry point answers from its cache once it has
    returned: the same result, and the state is left as it is. *)
Lemma SignerPublicKeyBlobref_cached (st st1 : State) (r : option BlobRef) :
  SignerPublicKeyBlobref st = Ret r st1 -> SignerPublicKeyBlobref st1 = Ret r st1.
Proof.
  unfold SignerPublicKeyBlobref, signerPublicKeyRefOnce_Do, Once_Do,
    initSignerPublicKeyBlobref, modify, gets, bind.
  destruct (signerPublicKeyRefOnce st) eqn:Hdone.
  - intros [= Hr <-]. now rewrite Hdone, Hr.
  - destruct (getSignerPublicKeyBlobref st) as [r' st' | |]; simpl;
      try (intros H; discriminate H).
    intros [= <- <-]. reflexivity.
Qed.

(** C6. Identity resolution that has returned a content address returns
    the same address when it is run again, and the second run writes
    nothing: through [SignerPublicKeyBlobref] the second call is answered
    from the cache with the whole state untouched; and a second run of
    [getSignerPublicKeyBlobref] itself finds the published file, does not
    rewrite it and does not fail on it, so that the two runs together call
    [ioutil.WriteFile] at most once.  (The published path is assumed not to
    be the path that [osutil.IdentitySecretRing] probes.) *)
Theorem signer_blobref_twice (st st1 : State) (br : BlobRef) :
  (SignerPublicKeyBlobref st = Ret (Some br) st1 ->
   SignerPublicKeyBlobref st1 = Ret (Some br) st1) /\
  (getSignerPublicKeyBlobref st = Ret (Some br) st1 ->
   (forall dir, as_string (config st1 !! "selfPubKeyDir") = Some dir ->
                Join dir (BlobRef_String br +:+ ".camli") <> IdentitySecretRing) ->
   exists st2,
     getSignerPublicKeyBlobref st1 = Ret (Some br) st2 /\
     fs st2 = fs st1 /\
     file_writes st2 = file_writes st1 /\
     file_writes st1 <= S (file_writes st)).
Proof.
  split; [apply SignerPublicKeyBlobref_cached |].
  intros Hrun Hpath.
  destruct (getSignerPublicKeyBlobref_loaded st st1 br Hrun) as (stc & keyId & Hload & Hkey).
  pose proof (configOnce_Do_loads st stc Hload) as Honce.
  pose proof (configOnce_Do_parseConfig_frame st stc Hload)
    as (_ & _ & _ & _ & _ & _ & _ & _ & Hwrites).
  rewrite (getSignerPublicKeyBlobref_steps st stc keyId Hload Hkey) in Hrun.
  (* the state left by the first run, from the run of lines 194-228 *)
  assert (forall keyRing sk,
            fs sk = fs stc -> config sk = config stc -> configOnce sk = true ->
            file_writes sk = file_writes stc ->
            publishSignerPublicKey keyId keyRing sk = Ret (Some br) st1 ->
            exists data entity armored dir,
              fs st1 !! keyRing = Some (File data) /\
              secring_lookup keyId data = inl entity /\
              ArmoredPublicKey entity = inl armored /\
              as_string (config st1 !! "selfPubKeyDir") = Some dir /\
              fs st1 !! dir = Some Dir /\
              br = SHA1FromString armored /\
              is_Some (fs st1 !! Join dir (BlobRef_String br +:+ ".camli")) /\
              config st1 = config stc /\ configOnce st1 = true /\
              file_writes st1 <= S (file_writes st) /\
              (forall p, p <> Join dir (BlobRef_String br +:+ ".camli") ->
                         fs st1 !! p = fs stc !! p)) as Hfirst.
  { intros keyRing sk Hfs Hcfg Hdone Hw Hpub.
    apply publishSignerPublicKey_inv in Hpub
      as (data & entity & armored & dir & Hring & Hent & Harm & Hdir & Hfi & Hbr
          & Hcfg1 & Honce1 & _ & Hcases).
    exists data, entity, armored, dir. cbv zeta in Hcases.
    destruct Hcases as [(Hex & Hfs1 & Hw1) | (Hnone & Hfs1 & Hw1)].
    - rewrite Hfs1. repeat split; try congruence; try lia.
    - rewrite Hfs1. repeat split; try congruence; try lia.
      + rewrite lookup_insert_ne; [exact Hring | congruence].
      + rewrite lookup_insert_ne; [exact Hfi | congruence].
      + rewrite lookup_insert_eq. eauto.
      + intros p Hp. rewrite lookup_insert_ne; [now rewrite Hfs | congruence]. }
  (* the second run, on a state that has the facts above *)
  assert (forall keyRing data entity armored dir sk,
            fs sk = fs st1 -> config sk = config st1 ->
            file_writes sk = file_writes st1 ->
            fs st1 !! keyRing = Some (File data) ->
            secring_lookup keyId data = inl entity ->
            ArmoredPublicKey entity = inl armored ->
            as_string (config st1 !! "selfPubKeyDir") = Some dir ->
            fs st1 !! dir = Some Dir ->
            br = SHA1FromString armored ->
            is_Some (fs st1 !! Join dir (BlobRef_String br +:+ ".camli")) ->
            exists st2,
              publishSignerPublicKey keyId keyRing sk = Ret (Some br) st2 /\
              fs st2 = fs st1 /\ file_writes st2 = file_writes st1) as Hsecond.
  { intros keyRing data entity armored dir sk Hfs Hcfg Hw Hring Hent Harm Hdir Hfi -> Hex.
    destruct (publishSignerPublicKey_published keyId keyRing sk data entity armored dir)
      as (st2 & Hrun2 & Hfs2 & Hw2); try congruence.
    exists st2. repeat split; congruence. }
  (* the two runs, for the ring [keyRing] chosen on the way to the states
     [sk] and [sk'] by the first and by the second run *)
  assert (forall keyRing sk sk',
            fs sk = fs stc -> config sk = config stc -> configOnce sk = true ->
            file_writes sk = file_writes stc ->
            publishSignerPublicKey keyId keyRing sk = Ret (Some br) st1 ->
            fs sk' = fs st1 -> config sk' = config st1 ->
            file_writes sk' = file_writes st1 ->
            exists st2,
              publishSignerPublicKey keyId keyRing sk' = Ret (Some br) st2 /\
              fs st2 = fs st1 /\
              file_writes st2 = file_writes st1 /\
              file_writes st1 <= S (file_writes st)) as Hboth.
  { intros keyRing sk sk' Hfs Hcfg Hdone Hw Hpub Hfs' Hcfg' Hw'.
    destruct (Hfirst keyRing sk Hfs Hcfg Hdone Hw Hpub)
      as (data & entity & armored & dir & Hring & Hent & Harm & Hdir & Hfi & Hbr & Hex
          & _ & _ & Hle & _).
    destruct (Hsecond keyRing data entity armored dir sk'
                Hfs' Hcfg' Hw' Hring Hent Harm Hdir Hfi Hbr Hex)
      as (st2 & H2 & Hfs2 & Hw2).
    exists st2. repeat split; assumption. }
  destruct (as_string (config stc !! "secretRing")) as [keyRing|] eqn:Hsec.
  - destruct (Hfirst keyRing stc eq_refl eq_refl Honce eq_refl Hrun)
      as (_ & _ & _ & _ & _ & _ & _ & _ & _ & _ & _ & Hcfg1 & Honce1 & _).
    assert (as_string (config st1 !! "keyId") = Some keyId) as Hkey1 by congruence.
    rewrite (getSignerPublicKeyBlobref_steps st1 st1 keyId
               (configOnce_Do_done parseConfig st1 Honce1) Hkey1).
    rewrite Hcfg1, Hsec.
    now apply (Hboth keyRing stc st1).
  - cbv zeta in Hrun. case_bool_decide as Hid.
    + set (s1 := set_trace (EvStat IdentitySecretRing :: trace stc) stc) in *.
      assert (file_writes s1 = file_writes stc) as Hw1
        by (subst s1; now rewrite file_writes_emit).
      destruct (Hfirst IdentitySecretRing s1 eq_refl eq_refl Honce Hw1 Hrun)
        as (data & _ & _ & _ & Hring & _ & _ & _ & _ & _ & _ & Hcfg1 & Honce1 & _).
      assert (as_string (config st1 !! "keyId") = Some keyId) as Hkey1 by congruence.
      rewrite (getSignerPublicKeyBlobref_steps st1 st1 keyId
                 (configOnce_Do_done parseConfig st1 Honce1) Hkey1).
      rewrite Hcfg1, Hsec. cbv zeta.
      rewrite bool_decide_eq_true_2 by (rewrite Hring; eauto).
      apply (Hboth IdentitySecretRing s1); try assumption; try reflexivity;
        now rewrite !file_writes_emit.
    + case_bool_decide as Hdef; [| discriminate Hrun].
      set (s1 := set_trace (EvStat IdentitySecretRing :: trace stc) stc) in *.
      set (s2 := set_trace (EvStat DefaultSecRingPath :: trace s1) s1) in *.
      assert (file_writes s2 = file_writes stc) as Hw2
        by (subst s2 s1; now rewrite !file_writes_emit).
      destruct (Hfirst DefaultSecRingPath s2 eq_refl eq_refl Honce Hw2 Hrun)
        as (data & _ & _ & dir & Hring & _ & _ & Hdir & _ & _ & _ & Hcfg1 & Honce1
            & _ & Hother).
      assert (as_string (config st1 !! "keyId") = Some keyId) as Hkey1 by congruence.
      rewrite (getSignerPublicKeyBlobref_steps st1 st1 keyId
                 (configOnce_Do_done parseConfig st1 Honce1) Hkey1).
      rewrite Hcfg1, Hsec. cbv zeta.
      rewrite bool_decide_eq_false_2.
      2: { rewrite Hother; [exact Hid |]. intros Heq. now apply (Hpath dir Hdir). }
      rewrite bool_decide_eq_true_2 by (rewrite Hring; eauto).
      apply (Hboth DefaultSecRingPath s2); try assumption; try reflexivity;
        now rewrite !file_writes_emit.
Qed.

End SignerClaims.

(** A process with a key id, a ring that holds the key and a directory
    for its own blobs resolves its identity twice. *)
Lemma signer_blobref_twice_witness :
  let obj : Obj := {[ "keyId" := JStr "K"; "secretRing" := JStr "/ring";
                      "selfPubKeyDir" := JStr "/pub" ]} in
  let st := Demo.start obj None ∅ {[ "/ring" := File "K"; "/pub" := Dir ]} in
  let st1 := final (@getSignerPublicKeyBlobref (Demo.ext obj) st) in
  let stA := final (@SignerPublicKeyBlobref (Demo.ext obj) st) in
  SignerPublicKeyBlobref stA = Ret (Some "PGP K") stA /\
  exists st2,
    getSignerPublicKeyBlobref st1 = Ret (Some "PGP K") st2 /\
    fs st2 = fs st1 /\
    file_writes st2 = file_writes st1 /\
    file_writes st1 <= S (file_writes st).
Proof.
  intros obj st st1 stA.
  split.
  - apply (proj1 (@signer_blobref_twice (Demo.ext obj) st stA "PGP K")).
    vm_compute. reflexivity.
  - apply (proj2 (@signer_blobref_twice (Demo.ext obj) st st1 "PGP K")).
    + vm_compute. reflexivity.
    + intros dir Hdir. vm_compute in Hdir. injection Hdir as <-.
      vm_compute. discriminate.
Defined.

(** * Further properties of config.go *)

(** ** Loading the configuration (lines 58-74) *)

Section LoadFacts.
Context `{Ext : Externals}.

(** [parseConfig] with nothing at the path of the configuration file. *)
Lemma parseConfig_absent (st : State) :
  fs st !! ConfigFilePath = None ->
  exists st',
    parseConfig st = Ret tt st' /\
    parseConfigErr st' = Some ErrNotExist /\
    config st' = config st /\
    config_reads st' = config_reads st /\
    trace st' = EvStat ConfigFilePath :: trace st.
Proof.
  intros Hfs. unfold parseConfig, os_Stat, emit, modify, gets, bind. simpl.
  rewrite Hfs. eexists. split; [reflexivity |]. now repeat split.
Qed.

(** [parseConfig] with something at the path of the configuration file. *)
Lemma parseConfig_present (st : State) (fi : node) :
  fs st !! ConfigFilePath = Some fi ->
  let decoded := match fi with
                 | File data => jsonconfig_parse data
                 | Dir => inr "read error"
                 end in
  config_reads (final (parseConfig st)) = S (config_reads st) /\
  match decoded with
  | inl obj =>
      exists st', parseConfig st = Ret tt st' /\ config st' = obj /\
                  parseConfigErr st' = parseConfigErr st
  | inr err =>
      exists st', parseConfig st = Fatal "%v" [err] st'
  end.
Proof.
  intros Hfs decoded. subst decoded.
  unfold parseConfig, os_Stat, jsonconfig_ReadFile, log_Fatal, log_Fatalf, emit,
    modify, gets, bind. simpl. rewrite Hfs. simpl. rewrite Hfs.
  destruct fi as [data|]; [destruct (jsonconfig_parse data) |]; simpl;
    (split; [| eexists; repeat split; reflexivity]);
    unfold config_reads; simpl; rewrite !filter_cons; simpl;
    repeat (destruct (decide _); try congruence); reflexivity.
Qed.

(** X1. Without a configuration file, [parseConfig] records
    [os.ErrNotExist] and returns: the mapping is left as it was,
    [jsonconfig.ReadFile] is not called and nothing is logged; the one
    event is the [os.Stat] of the path. *)
Theorem parseConfig_missing_file (st : State) :
  fs st !! ConfigFilePath = None ->
  exists st',
    parseConfig st = Ret tt st' /\
    parseConfigErr st' = Some ErrNotExist /\
    config st' = config st /\
    config_reads st' = config_reads st /\
    trace st' = EvStat ConfigFilePath :: trace st.
Proof. apply parseConfig_absent. Qed.

(** X2. With a configuration file, [parseConfig] calls
    [jsonconfig.ReadFile] once; when the file decodes, it returns with
    the decoded mapping in place of the old one and records no error, and
    when it does not, the process exits through [log.Fatal] with the
    error of the decoder. *)
Theorem parseConfig_present_file (st : State) (data : string) :
  fs st !! ConfigFilePath = Some (File data) ->
  config_reads (final (parseConfig st)) = S (config_reads st) /\
  match jsonconfig_parse data with
  | inl obj =>
      exists st', parseConfig st = Ret tt st' /\ config st' = obj /\
                  parseConfigErr st' = parseConfigErr st
  | inr err =>
      exists st', parseConfig st = Fatal "%v" [err] st'
  end.
Proof. intros Hfs. exact (parseConfig_present st (File data) Hfs). Qed.

Lemma frame_keeps {A} (m : M A) : cache_frame m -> keeps_config m.
Proof.
  intros Hm st H. destruct (Hm st) as (H1 & H2 & H3 & H4).
  repeat split; congruence.
Qed.

Lemma frame_loads_once {A} (m : M A) : cache_frame m -> loads_once m.
Proof.
  intros Hm. split; [now apply frame_keeps |].
  intros st H. destruct (Hm st) as (H1 & H2 & _ & H4).
  destruct (m st); simpl in *; auto; left; repeat split; congruence.
Qed.

Lemma frame_ret {A} (a : A) : cache_frame (ret a).
Proof. intros st. now repeat split. Qed.

Lemma frame_gets {A} (f : State -> A) : cache_frame (gets f).
Proof. intros st. now repeat split. Qed.

Lemma frame_panic {A} (msg : string) : cache_frame (@panic _ A msg).
Proof. intros st. now repeat split. Qed.

Lemma frame_bind {A B} (m : M A) (k : A -> M B) :
  cache_frame m -> (forall a, cache_frame (k a)) -> cache_frame (bind m k).
Proof.
  intros Hm Hk st. specialize (Hm st). unfold bind.
  destruct (m st) as [a st1 | |]; simpl in *; try exact Hm.
  destruct (Hk a st1) as (H1 & H2 & H3 & H4), Hm as (G1 & G2 & G3 & G4).
  repeat split; congruence.
Qed.

Lemma frame_emit (e : event) : is_JsonRead e = false -> cache_frame (emit e).
Proof.
  intros He st. repeat split. simpl. now apply config_reads_emit.
Qed.

Lemma frame_modify (f : State -> State) :
  (forall st, configOnce (f st) = configOnce st /\ config (f st) = config st /\
              parseConfigErr (f st) = parseConfigErr st /\ trace (f st) = trace st) ->
  cache_frame (modify f).
Proof.
  intros Hf st. destruct (Hf st) as (H1 & H2 & H3 & H4).
  repeat split; simpl; try congruence. unfold config_reads. now rewrite H4.
Qed.

Lemma frame_update_client (c : nat) (f : Client -> Client) :
  cache_frame (modify (update_client c f)).
Proof. apply frame_modify. intros st. now repeat split. Qed.

Lemma frame_set_fs (files : gmap string node) : cache_frame (modify (set_fs files)).
Proof. apply frame_modify. intros st. now repeat split. Qed.

Lemma frame_set_signerPublicKeyRef (r : option BlobRef) :
  cache_frame (modify (set_signerPublicKeyRef r)).
Proof. apply frame_modify. intros st. now repeat split. Qed.

Lemma frame_log_Printf (format : string) (args : list string) :
  cache_frame (log_Printf format args).
Proof. now apply frame_emit. Qed.

Lemma frame_log_Fatalf {A} (format : string) (args : list string) :
  cache_frame (@log_Fatalf _ A format args).
Proof. intros st. now repeat split. Qed.

Lemma frame_os_Stat (path : string) : cache_frame (os_Stat path).
Proof. apply frame_bind; [now apply frame_emit | intros; apply frame_gets]. Qed.

Lemma frame_fileExists (name : string) : cache_frame (fileExists name).
Proof. apply frame_bind; [apply frame_os_Stat | intros; apply frame_ret]. Qed.

Lemma frame_EntityFromSecring (keyId keyRing : string) :
  cache_frame (jsonsign_EntityFromSecring keyId keyRing).
Proof. apply frame_bind; [now apply frame_emit | intros; apply frame_gets]. Qed.

Lemma frame_WriteFile (path data : string) : cache_frame (ioutil_WriteFile path data).
Proof.
  apply frame_bind; [now apply frame_emit | intros _].
  apply frame_bind; [apply frame_gets | intros st].
  destruct (bool_decide _); [apply frame_ret |].
  destruct (fs st !! path) as [[]|];
    try apply frame_ret;
    (apply frame_bind; [apply frame_set_fs | intros; apply frame_ret]).
Qed.

End LoadFacts.

Section LoadOnce.
Context `{Ext : Externals}.

Lemma loads_once_bind {A B} (m : M A) (k : A -> M B) :
  loads_once m -> (forall a, loads_once (k a)) -> loads_once (bind m k).
Proof.
  intros [Hmk Hm] Hk. split.
  - apply keeps_bind; [exact Hmk | intros a; apply Hk].
  - intros st H. specialize (Hm st H). unfold bind.
    destruct (m st) as [a st1 | |] eqn:Hrun; simpl in *; try exact Hm.
    destruct Hm as [(H1 & H2 & H3) | (H1 & H2)].
    + destruct (Hk a) as [_ Hka]. specialize (Hka st1 H1).
      destruct (after (k a st1)) as [st2|]; [| exact I].
      destruct Hka as [(G1 & G2 & G3) | (G1 & G2)]; [left | right];
        repeat split; try congruence; lia.
    + destruct (Hk a) as [Hkk _]. specialize (Hkk st1 H1).
      destruct (k a st1) as [b st2 | |]; simpl in *; try exact I;
        destruct Hkk as (G1 & _ & _ & G4); right; split; try assumption; lia.
Qed.

(** The one place where the configuration is loaded. *)
Lemma loads_once_configOnce_Do : loads_once (configOnce_Do parseConfig).
Proof.
  split; [apply keeps_configOnce_Do |].
  intros st H. unfold configOnce_Do, Once_Do. rewrite H.
  destruct (fs st !! ConfigFilePath) as [fi|] eqn:Hfs.
  - pose proof (parseConfig_present st fi Hfs) as [Hreads Hout]. cbv zeta in Hout.
    destruct (match fi with File data => jsonconfig_parse data | Dir => inr "read error" end).
    + destruct Hout as (st' & Hrun & _). rewrite Hrun in *. simpl in *.
      right. split; [reflexivity |]. unfold config_reads in *. simpl. lia.
    + destruct Hout as (st' & Hrun). rewrite Hrun. exact I.
  - destruct (parseConfig_absent st Hfs) as (st' & Hrun & _ & _ & Hreads & _).
    rewrite Hrun. simpl. right. split; [reflexivity |].
    unfold config_reads in *. simpl. lia.
Qed.

Lemma loads_once_Once_Do (done : State -> bool) (mark : bool -> State -> State) (f : M unit) :
  (forall b, cache_frame (modify (mark b))) ->
  loads_once f -> loads_once (Once_Do done mark f).
Proof.
  intros Hmark [Hfk Hf]. split.
  - apply keeps_Once_Do; [intros b; apply frame_keeps, Hmark | exact Hfk].
  - intros st H. unfold Once_Do. destruct (done st); simpl.
    + left. now repeat split.
    + specialize (Hf st H).
      destruct (f st) as [a st1 | fm ar st1 | msg st1]; simpl in *; try exact I;
        destruct (Hmark true st1) as (M1 & M2 & _ & M4); simpl in *;
        (destruct Hf as [(H1 & H2 & H3) | (H1 & H2)]; [left | right];
         repeat split; try congruence; lia).
Qed.

Create HintDb loads discriminated.
#[local] Hint Resolve frame_ret frame_gets frame_panic frame_update_client
  frame_set_signerPublicKeyRef frame_log_Printf frame_log_Fatalf frame_os_Stat
  frame_fileExists frame_EntityFromSecring frame_WriteFile : loads.

Ltac loads_step :=
  match goal with
  | |- loads_once (bind _ _) => apply loads_once_bind; [| intros ?]
  | |- loads_once (configOnce_Do parseConfig) => apply loads_once_configOnce_Do
  | |- loads_once (if ?b then _ else _) => destruct b
  | |- loads_once (match ?x with _ => _ end) => destruct x
  | |- loads_once _ => solve [apply frame_loads_once; auto with loads]
  end.

Lemma loads_once_serverOrDie : loads_once serverOrDie.
Proof. unfold serverOrDie. repeat loads_step. Qed.

Lemma loads_once_SetupAuth (c : nat) : loads_once (SetupAuth c).
Proof.
  unfold SetupAuth, SetupAuthFromConfig, os_Getenv, log_Fatal. repeat loads_step.
Qed.

Lemma loads_once_SecretRingFile (c : nat) : loads_once (SecretRingFile c).
Proof. unfold SecretRingFile. repeat loads_step. Qed.

Lemma loads_once_getSignerPublicKeyBlobref : loads_once getSignerPublicKeyBlobref.
Proof.
  unfold getSignerPublicKeyBlobref, publishSignerPublicKey. repeat loads_step.
Qed.

Lemma loads_once_SignerPublicKeyBlobref : loads_once SignerPublicKeyBlobref.
Proof.
  unfold SignerPublicKeyBlobref, signerPublicKeyRefOnce_Do, initSignerPublicKeyBlobref.
  apply loads_once_bind; [| intros; apply frame_loads_once, frame_gets].
  apply loads_once_Once_Do.
  - intros b. apply frame_modify. intros st. now repeat split.
  - apply loads_once_bind; [apply loads_once_getSignerPublicKeyBlobref |].
    intros r. apply frame_loads_once, frame_set_signerPublicKeyRef.
Qed.

Lemma loads_once_initTrustedCerts_loop (c : nat) (val : list jvalue) :
  loads_once (initTrustedCerts_loop c val).
Proof.
  apply frame_loads_once. induction val as [|v rest IH]; simpl; [apply frame_ret |].
  destruct v; try apply frame_log_Printf.
  apply frame_bind; [apply frame_update_client | intros; exact IH].
Qed.

Lemma loads_once_GetTrustedCerts (c : nat) : loads_once (GetTrustedCerts c).
Proof.
  unfold GetTrustedCerts, initTrustedCertsOnce_Do.
  apply loads_once_bind; [| intros; apply frame_loads_once, frame_gets].
  apply loads_once_Once_Do.
  - intros b. apply frame_modify. intros st. now repeat split.
  - unfold initTrustedCerts, os_Getenv.
    repeat first [apply loads_once_initTrustedCerts_loop | loads_step].
Qed.

Lemma step_load_inv (st st' : State) : load_inv st -> step st st' -> load_inv st'.
Proof.
  intros [Hle Hnot] Hstep.
  assert (forall A (m : M A), loads_once m -> after (m st) = Some st' -> load_inv st')
    as Hcall.
  { intros A m [Hk Hm] Hafter. destruct (configOnce st) eqn:Honce.
    - apply after_final in Hafter. destruct (Hk st Honce) as (H1 & H2 & H3 & H4).
      rewrite Hafter in *. split; [lia | congruence].
    - specialize (Hm st Honce). rewrite Hafter in Hm.
      destruct (Hnot eq_refl) as [Hzero Hempty].
      destruct Hm as [(H1 & H2 & H3) | (H1 & H2)].
      + split; [lia |]. intros _. split; congruence.
      + split; [lia | congruence]. }
  destruct Hstep as [r st st' Hr | files st].
  - destruct r; simpl in Hr.
    + exact (Hcall _ _ loads_once_serverOrDie Hr).
    + exact (Hcall _ _ (loads_once_SetupAuth c) Hr).
    + exact (Hcall _ _ (loads_once_SecretRingFile c) Hr).
    + exact (Hcall _ _ loads_once_SignerPublicKeyBlobref Hr).
    + exact (Hcall _ _ (loads_once_GetTrustedCerts c) Hr).
  - split; [exact Hle | exact Hnot].
Qed.

(** X3. In the whole life of a process, whatever resolvers are called in
    whatever order and however the files change in between,
    [jsonconfig.ReadFile] is called at most once; and as long as no call
    has gone through [configOnce], it has not been called and the mapping
    is the empty one it was made as. *)
Theorem config_read_at_most_once
    (flag : option string) (e : gmap string string) (files : gmap string node)
    (ro : gset string) (st : State) :
  rtc step (initState flag e files ro) st ->
  config_reads st <= 1 /\
  (configOnce st = false -> config_reads st = 0 /\ config st = ∅).
Proof.
  intros Hsteps. change (load_inv st).
  assert (load_inv (initState flag e files ro)) as Hinit.
  { split; [unfold config_reads; simpl; lia |]. intros _. now split. }
  remember (initState flag e files ro) as st0 eqn:Hst0. clear Hst0.
  induction Hsteps as [st | st st1 st2 Hstep _ IH]; [exact Hinit |].
  apply IH. now apply step_load_inv with st.
Qed.

End LoadOnce.

(** A process resolves its server, its trusted certificates and its
    identity, the file being replaced in between. *)
Lemma config_read_at_most_once_witness :
  let obj : Obj := {[ "server" := JStr "example.com" ]} in
  let st0 := Demo.start obj None ∅ ∅ in
  let st1 := final (@serverOrDie (Demo.ext obj) st0) in
  let st2 := final (GetTrustedCerts 0 (set_fs ∅ st1)) in
  config_reads st2 <= 1 /\
  (configOnce st2 = false -> config_reads st2 = 0 /\ config st2 = ∅).
Proof.
  intros obj st0 st1 st2.
  apply (@config_read_at_most_once (Demo.ext obj) None ∅
           (<[Demo.configPath := File "{}"]> ∅) ∅).
  eapply rtc_l; [apply (step_call CallServerOrDie); vm_compute; reflexivity |].
  eapply rtc_l; [apply step_disk |].
  eapply rtc_l; [| apply rtc_refl].
  apply (step_call (CallGetTrustedCerts 0)). vm_compute. reflexivity.
Defined.

(** ** More on server resolution (lines 76-107) *)

Section ServerMore.
Context `{Ext : Externals}.

(** X4. Whatever the input, the normalized server starts with [http] and
    is not empty; it still ends in a slash exactly when the input is empty,
    is a lone slash or ends in two slashes. *)
Theorem cleanServer_result_shape (s : string) :
  HasPrefix (cleanServer s) "http" = true /\
  cleanServer s <> EmptyString /\
  (HasSuffix (cleanServer s) "/" = true <->
   s = EmptyString \/ s = "/" \/ HasSuffix s "//" = true).
Proof.
  split; [apply cleanServer_has_scheme |].
  split; [apply cleanServer_nonempty | apply cleanServer_ends_slash].
Qed.

(** X5. The inputs that normalization leaves as they are, are those
    that start with [http] and do not end in a slash. *)
Theorem cleanServer_fixpoint_iff (s : string) :
  cleanServer s = s <-> HasPrefix s "http" = true /\ HasSuffix s "/" = false.
Proof.
  split.
  - intros Hfix. split.
    + rewrite <- Hfix. apply cleanServer_has_scheme.
    + destruct (HasSuffix s "/") eqn:Hs; [| reflexivity]. exfalso.
      apply HasSuffix_true in Hs as [t ->]. rewrite cleanServer_slash in Hfix.
      apply (f_equal String.length) in Hfix.
      destruct (HasPrefix t "http"); rewrite !length_append in Hfix; simpl in Hfix; lia.
  - intros [Hp Hs]. rewrite (cleanServer_no_slash s Hs). now rewrite Hp.
Qed.

Lemma HasPrefix_http_drop_slash (t : string) :
  HasPrefix (t +:+ "/") "http" = true -> HasPrefix t "http" = true.
Proof.
  intros H. apply HasPrefix_true in H as [u Hu]. apply HasPrefix_true.
  destruct (string_snoc_cases u) as [-> | (u' & c & ->)].
  - exfalso. change ("http" +:+ EmptyString) with ("htt" +:+ "p") in Hu.
    apply append_snoc_inj in Hu as [_ Hc]. discriminate.
  - exists u'. rewrite <- append_assoc in Hu. now apply append_snoc_inj in Hu as [-> _].
Qed.

(** X6. A server given with a scheme other than [https://] is not moved
    to TLS: when the input starts with [http] but not with [https://],
    neither does the normalized value, and [useTLS] answers no for a
    [Client] whose server it is. *)
Theorem cleanServer_keeps_plain_http (s : string) (c : nat) (st : State) :
  HasPrefix s "http" = true ->
  HasPrefix s "https://" = false ->
  server (client_of st c) = cleanServer s ->
  HasPrefix (cleanServer s) "https://" = false /\
  useTLS c st = Ret false st.
Proof.
  intros Hp Hs Hserver.
  assert (HasPrefix (cleanServer s) "https://" = false) as Hplain.
  { destruct (HasPrefix (cleanServer s) "https://") eqn:Hc; [| reflexivity].
    exfalso. apply HasPrefix_true in Hc as [u Hu].
    destruct (HasSuffix s "/") eqn:Hsl.
    - apply HasSuffix_true in Hsl as [t ->].
      rewrite cleanServer_slash, (HasPrefix_http_drop_slash t Hp) in Hu. subst t.
      assert (HasPrefix (("https://" +:+ u) +:+ "/") "https://" = true) as Hc.
      { apply HasPrefix_true. exists (u +:+ "/"). now rewrite append_assoc. }
      congruence.
    - rewrite (cleanServer_no_slash s Hsl), Hp in Hu. subst s.
      assert (HasPrefix ("https://" +:+ u) "https://" = true) as Hc
        by (apply HasPrefix_true; eauto).
      congruence. }
  split; [exact Hplain |]. unfold useTLS, gets. now rewrite Hserver, Hplain.
Qed.

(** X7. Every value that [serverOrDie] returns starts with [http], and
    is the normalization either of the flag, in which case nothing else
    happened, or of the string under [server] in the configuration, which
    is then loaded. *)
Theorem serverOrDie_returns (st st' : State) (r : string) :
  serverOrDie st = Ret r st' ->
  HasPrefix r "http" = true /\
  ((exists s, flagServer st = Some s /\ s <> EmptyString /\ r = cleanServer s /\ st' = st)
   \/
   (explicit_flag st = None /\ configOnce st' = true /\
    exists s, config st' !! "server" = Some (JStr s) /\ r = cleanServer s)).
Proof.
  intros Hrun. destruct (explicit_flag st) as [s|] eqn:Hflag.
  - rewrite (serverOrDie_flag st s Hflag) in Hrun. injection Hrun as <- <-.
    split; [apply cleanServer_has_scheme |]. left. exists s.
    unfold explicit_flag in Hflag. destruct (flagServer st) as [s0|]; [| discriminate].
    destruct (String.eqb s0 EmptyString) eqn:He; [discriminate |].
    injection Hflag as ->. apply String.eqb_neq in He. now repeat split.
  - destruct (configOnce_Do parseConfig st) as [[] st1 | |] eqn:Hload.
    + rewrite (serverOrDie_config st st1 Hflag Hload) in Hrun.
      destruct (config st1 !! "server") as [[]|] eqn:Hv; try discriminate.
      injection Hrun as <- <-.
      split; [apply cleanServer_has_scheme |]. right.
      split; [reflexivity |]. split; [now apply configOnce_Do_loads with st | eauto].
    + unfold serverOrDie, bind, gets in Hrun. rewrite Hflag, Hload in Hrun. discriminate.
    + unfold serverOrDie, bind, gets in Hrun. rewrite Hflag, Hload in Hrun. discriminate.
Qed.

(** X8. Without the flag and without a configuration file, a process
    that has not loaded its configuration yet exits: the diagnostic names
    the path of the configuration file, the file was never read, and the
    missing file was recorded. *)
Theorem serverOrDie_no_config_file (st : State) :
  explicit_flag st = None ->
  configOnce st = false ->
  fs st !! ConfigFilePath = None ->
  config st !! "server" = None ->
  exists st',
    serverOrDie st =
      Fatal ("Missing or invalid " +:+ dq +:+ "server" +:+ dq +:+ " in %q")
            [ConfigFilePath] st' /\
    parseConfigErr st' = Some ErrNotExist /\
    config_reads st' = config_reads st.
Proof.
  intros Hflag Honce Hfs Hcfg.
  destruct (parseConfig_absent st Hfs) as (st1 & Hrun & Herr & Hc & Hreads & _).
  assert (configOnce_Do parseConfig st = Ret tt (set_configOnce true st1)) as Hload.
  { unfold configOnce_Do, Once_Do. now rewrite Honce, Hrun. }
  rewrite (serverOrDie_config st _ Hflag Hload). simpl. rewrite Hc, Hcfg.
  eexists. split; [reflexivity |]. split; [exact Herr | exact Hreads].
Qed.

(** X9. A configuration file that does not decode ends every resolution
    that has to load it: the server and the auth without the flag, the
    secret ring and the identity all exit through the [log.Fatal] of
    [parseConfig]. *)
Theorem unparsable_config_is_fatal
    (c : nat) (st st' : State) (format : string) (args : list string) :
  configOnce_Do parseConfig st = Fatal format args st' ->
  (explicit_flag st = None -> serverOrDie st = Fatal format args st') /\
  (explicit_flag st = None -> SetupAuth c st = Fatal format args st') /\
  SecretRingFile c st = Fatal format args st' /\
  getSignerPublicKeyBlobref st = Fatal format args st' /\
  (signerPublicKeyRefOnce st = false -> SignerPublicKeyBlobref st = Fatal format args st').
Proof.
  intros Hload. repeat split.
  - intros Hflag. unfold serverOrDie, bind, gets. now rewrite Hflag, Hload.
  - intros Hflag. unfold SetupAuth, bind, gets. now rewrite Hflag, Hload.
  - unfold SecretRingFile, bind. now rewrite Hload.
  - unfold getSignerPublicKeyBlobref, bind. now rewrite Hload.
  - intros Hdone.
    unfold SignerPublicKeyBlobref, signerPublicKeyRefOnce_Do, Once_Do,
      initSignerPublicKeyBlobref, getSignerPublicKeyBlobref, bind.
    now rewrite Hdone, Hload.
Qed.

End ServerMore.

Lemma cleanServer_keeps_plain_http_witness :
  let s := "http://localhost:3179/" in
  let st := update_client 0 (fun cl => mkClient (cleanServer s) (authMode cl) (trustedCerts cl))
              (@initState (Demo.ext ∅) None ∅ ∅ ∅) in
  HasPrefix (cleanServer s) "https://" = false /\ useTLS 0 st = Ret false st.
Proof.
  intros s st.
  apply (@cleanServer_keeps_plain_http (Demo.ext ∅) s 0 st); vm_compute; reflexivity.
Defined.

Lemma serverOrDie_returns_witness :
  let obj : Obj := {[ "server" := JStr "example.com" ]} in
  let st := Demo.start obj None ∅ ∅ in
  let st' := final (configOnce_Do parseConfig st) in
  HasPrefix "https://example.com" "http" = true /\
  ((exists s, flagServer st = Some s /\ s <> EmptyString /\
              "https://example.com" = cleanServer s /\ st' = st)
   \/
   (explicit_flag st = None /\ configOnce st' = true /\
    exists s, config st' !! "server" = Some (JStr s) /\
              "https://example.com" = cleanServer s)).
Proof.
  intros obj st st'.
  apply (@serverOrDie_returns (Demo.ext obj) st st' "https://example.com").
  vm_compute. reflexivity.
Defined.

Lemma serverOrDie_no_config_file_witness :
  let st := @initState (Demo.ext ∅) None ∅ ∅ ∅ in
  exists st',
    serverOrDie st =
      Fatal ("Missing or invalid " +:+ dq +:+ "server" +:+ dq +:+ " in %q")
            [@ConfigFilePath (Demo.ext ∅)] st' /\
    parseConfigErr st' = Some ErrNotExist /\
    config_reads st' = config_reads st.
Proof.
  intros st. apply (@serverOrDie_no_config_file (Demo.ext ∅) st); reflexivity.
Defined.

(** The decoder of this process rejects the file. *)
Lemma unparsable_config_is_fatal_witness :
  let bad : Externals :=
    {| AuthMode := string; Entity := string; BlobRef := string;
       CamliConfigDir := "/home/u/.camlistore";
       IdentitySecretRing := "/home/u/.camlistore/identity-secring.gpg";
       DefaultSecRingPath := "/home/u/.gnupg/secring.gpg";
       jsonconfig_parse := fun _ => inr "invalid character";
       auth_FromEnv := fun _ => (None, Some ErrNoAuth);
       auth_FromConfig := fun _ => (None, Some ErrNoAuth);
       secring_lookup := fun _ _ => inr "key not found";
       ArmoredPublicKey := fun e => inl e;
       SHA1FromString := fun text => text;
       BlobRef_String := fun br => br |} in
  let st := @initState bad None ∅ {[ Demo.configPath := File "{" ]} ∅ in
  let st' := final (configOnce_Do parseConfig st) in
  serverOrDie st = Fatal "%v" ["invalid character"] st' /\
  getSignerPublicKeyBlobref st = Fatal "%v" ["invalid character"] st'.
Proof.
  intros bad st st'.
  destruct (@unparsable_config_is_fatal bad 0 st st' "%v" ["invalid character"])
    as (H1 & _ & _ & H4 & _); [vm_compute; reflexivity |].
  split; [apply H1; reflexivity | exact H4].
Defined.

Lemma parseConfig_missing_file_witness :
  let st := @initState (Demo.ext ∅) None ∅ ∅ ∅ in
  exists st',
    parseConfig st = Ret tt st' /\
    parseConfigErr st' = Some ErrNotExist /\
    config st' = config st /\
    config_reads st' = config_reads st /\
    trace st' = EvStat (@ConfigFilePath (Demo.ext ∅)) :: trace st.
Proof. intros st. apply (@parseConfig_missing_file (Demo.ext ∅) st). reflexivity. Defined.

Lemma parseConfig_present_file_witness :
  let obj : Obj := {[ "server" := JStr "example.com" ]} in
  let st := Demo.start obj None ∅ ∅ in
  config_reads (final (@parseConfig (Demo.ext obj) st)) = 1 /\
  exists st', parseConfig st = Ret tt st' /\ config st' = obj /\
              parseConfigErr st' = parseConfigErr st.
Proof.
  intros obj st.
  apply (@parseConfig_present_file (Demo.ext obj) st "{}"). vm_compute. reflexivity.
Defined.

(** ** More on auth and on the secret ring (lines 109-153) *)

Section AuthMore.
Context `{Ext : Externals}.

(** X10. Without the server flag, [SetupAuth] goes by the loaded
    configuration: a string under [auth] is handed to [auth.FromConfig] and
    the environment is not consulted; a value under [auth] that is not a
    string is handed over as the empty string; only without the key does
    [auth.FromEnv] decide.  In each case the error is returned as it is
    and the mode is stored in the [Client], also on error. *)
Theorem SetupAuth_from_config (c : nat) (st st1 : State) :
  explicit_flag st = None ->
  configOnce_Do parseConfig st = Ret tt st1 ->
  let r := match config st1 !! "auth" with
           | Some (JStr a) => auth_FromConfig a
           | Some _ => auth_FromConfig EmptyString
           | None => auth_FromEnv (env st)
           end in
  SetupAuth c st = Ret (snd r) (update_client c (set_authMode (fst r)) st1).
Proof.
  intros Hflag Hload r. subst r.
  pose proof (configOnce_Do_parseConfig_frame st st1 Hload) as (_ & Henv & _).
  unfold SetupAuth, SetupAuthFromConfig, bind, gets, modify, ret.
  rewrite Hflag, Hload.
  destruct (config st1 !! "auth") as [[]|]; simpl; try reflexivity.
  now rewrite Henv.
Qed.

(** X11. [SecretRingFile] prefers a non-empty string under [secretRing]
    and then does not look at the disk; an empty string, a value that is
    not a string or no value at all fall back to the identity ring when
    that file exists, and else to the default ring of GnuPG, whose
    existence is not checked.  No file is written or changed. *)
Theorem SecretRingFile_choice (c : nat) (st st1 : State) :
  configOnce_Do parseConfig st = Ret tt st1 ->
  exists st2,
    SecretRingFile c st =
      Ret (match config st1 !! "secretRing" with
           | Some (JStr (String a k)) => String a k
           | _ => if bool_decide (is_Some (fs st !! IdentitySecretRing))
                  then IdentitySecretRing else DefaultSecRingPath
           end) st2 /\
    fs st2 = fs st /\ file_writes st2 = file_writes st /\
    (forall a k, config st1 !! "secretRing" = Some (JStr (String a k)) -> st2 = st1).
Proof.
  intros Hload.
  pose proof (configOnce_Do_parseConfig_frame st st1 Hload)
    as (_ & _ & Hfs & _ & _ & _ & _ & _ & Hw).
  rewrite <- Hfs, <- Hw.
  unfold SecretRingFile, fileExists, os_Stat, emit, modify, gets, ret, bind.
  rewrite Hload. simpl.
  destruct (config st1 !! "secretRing") as [[| | | [|a k] | |]|] eqn:Hsec; simpl;
    try (destruct (bool_decide (is_Some (fs st1 !! IdentitySecretRing)));
         eexists; (split; [reflexivity |]); (split; [reflexivity |]);
         (split; [now rewrite file_writes_emit |]); intros ? ? [=]).
  eexists. split; [reflexivity |]. now repeat split.
Qed.

End AuthMore.

(** The configuration names an auth scheme and the environment another:
    the one of the configuration is taken. *)
Lemma SetupAuth_from_config_witness :
  let obj : Obj := {[ "auth" := JStr "userpass:alice:secret" ]} in
  let st := Demo.start obj None {[ "CAMLI_AUTH" := "localhost" ]} ∅ in
  let st1 := final (configOnce_Do parseConfig st) in
  @SetupAuth (Demo.ext obj) 0 st =
    Ret None (update_client 0 (@set_authMode (Demo.ext obj)
                                 (Some "userpass:alice:secret")) st1).
Proof.
  intros obj st st1.
  apply (@SetupAuth_from_config (Demo.ext obj) 0 st st1); vm_compute; reflexivity.
Defined.

(** An empty [secretRing] and no identity ring on disk: the default ring. *)
Lemma SecretRingFile_choice_witness :
  let obj : Obj := {[ "secretRing" := JStr EmptyString ]} in
  let st := Demo.start obj None ∅ ∅ in
  exists st2,
    @SecretRingFile (Demo.ext obj) 0 st = Ret "/home/u/.gnupg/secring.gpg" st2 /\
    fs st2 = fs st /\ file_writes st2 = file_writes st.
Proof.
  intros obj st.
  destruct (@SecretRingFile_choice (Demo.ext obj) 0 st (final (configOnce_Do parseConfig st)))
    as (st2 & Hrun & Hfs & Hw & _); [vm_compute; reflexivity |].
  exists st2. split; [| split; assumption].
  rewrite Hrun. f_equal.
Defined.

(** ** More on the signer's public key (lines 160-229) *)

Section SignerMore.
Context `{Ext : Externals}.

(** [getSignerPublicKeyBlobref] when the configuration has no key id. *)
Lemma getSignerPublicKeyBlobref_stops_without_keyId (st st1 : State) :
  configOnce_Do parseConfig st = Ret tt st1 ->
  as_string (config st1 !! "keyId") = None ->
  exists st2,
    getSignerPublicKeyBlobref st = Ret None st2 /\
    fs st2 = fs st /\
    file_writes st2 = file_writes st /\
    trace st2 =
      EvLog ("No key %q in JSON configuration file %q; have you run "
             +:+ dq +:+ "camput init" +:+ dq +:+ "?") ["keyId"; ConfigFilePath]
      :: trace st1.
Proof.
  intros Hload Hkey.
  pose proof (configOnce_Do_parseConfig_frame st st1 Hload)
    as (_ & _ & Hfs & _ & _ & _ & _ & _ & Hw).
  unfold getSignerPublicKeyBlobref, log_Printf, emit, modify, gets, ret, bind.
  rewrite Hload, Hkey. eexists. split; [reflexivity |]. simpl.
  repeat split; try assumption; now rewrite file_writes_emit.
Qed.

(** X12. Without a string under [keyId], identity resolution returns
    nil: the one thing it does after loading the configuration is to log
    the missing key with the path of the configuration file; no ring is
    probed and no file is written or changed. *)
Theorem getSignerPublicKeyBlobref_no_keyId (st st1 : State) :
  configOnce_Do parseConfig st = Ret tt st1 ->
  as_string (config st1 !! "keyId") = None ->
  exists st2,
    getSignerPublicKeyBlobref st = Ret None st2 /\
    fs st2 = fs st /\
    file_writes st2 = file_writes st /\
    trace st2 =
      EvLog ("No key %q in JSON configuration file %q; have you run "
             +:+ dq +:+ "camput init" +:+ dq +:+ "?") ["keyId"; ConfigFilePath]
      :: trace st1.
Proof. apply getSignerPublicKeyBlobref_stops_without_keyId. Qed.

(** However lines 194-228 end, no path that existed has changed, and
    [ioutil.WriteFile] was called at most once. *)
Lemma publishSignerPublicKey_grows (keyId keyRing : string) (st : State) :
  let st' := final (publishSignerPublicKey keyId keyRing st) in
  (forall p x, fs st !! p = Some x -> fs st' !! p = Some x) /\
  file_writes st' <= S (file_writes st).
Proof.
  unfold publishSignerPublicKey, jsonsign_EntityFromSecring, os_Stat,
    ioutil_WriteFile, log_Printf, emit, modify, gets, ret, bind, id. simpl.
  destruct (fs st !! keyRing) as [[data|]|] eqn:Hring; simpl;
    try (split; [intros p x H; exact H |];
         unfold file_writes; simpl; rewrite !filter_cons; simpl;
         repeat (destruct (decide _); try congruence); simpl; lia).
  destruct (secring_lookup keyId data) as [entity|]; simpl;
    try (split; [intros p x H; exact H |];
         unfold file_writes; simpl; rewrite !filter_cons; simpl;
         repeat (destruct (decide _); try congruence); simpl; lia).
  destruct (ArmoredPublicKey entity) as [armored|]; simpl;
    try (split; [intros p x H; exact H |];
         unfold file_writes; simpl; rewrite !filter_cons; simpl;
         repeat (destruct (decide _); try congruence); simpl; lia).
  destruct (as_string (config st !! "selfPubKeyDir")) as [dir|]; simpl;
    try (split; [intros p x H; exact H |];
         unfold file_writes; simpl; rewrite !filter_cons; simpl;
         repeat (destruct (decide _); try congruence); simpl; lia).
  destruct (fs st !! dir) as [[|]|]; simpl;
    try (split; [intros p x H; exact H |];
         unfold file_writes; simpl; rewrite !filter_cons; simpl;
         repeat (destruct (decide _); try congruence); simpl; lia).
  destruct (fs st !! Join dir (BlobRef_String (SHA1FromString armored) +:+ ".camli"))
    as [fi|] eqn:Hpub; simpl;
    try (split; [intros p x H; exact H |];
         unfold file_writes; simpl; rewrite !filter_cons; simpl;
         repeat (destruct (decide _); try congruence); simpl; lia).
  destruct (bool_decide _); simpl; rewrite ?Hpub; simpl;
    (split;
     [ intros p x H;
       first [exact H | rewrite lookup_insert_ne; [exact H | congruence]]
     | unfold file_writes; simpl; rewrite !filter_cons; simpl;
       repeat (destruct (decide _); try congruence); simpl; lia ]).
Qed.

(** X13. A run of identity resolution that comes back never changes or
    removes a path that exists, and calls [ioutil.WriteFile] at most once
    (to create the blob of the public key). *)
Theorem getSignerPublicKeyBlobref_only_creates
    (st st' : State) (r : option BlobRef) :
  getSignerPublicKeyBlobref st = Ret r st' ->
  (forall p x, fs st !! p = Some x -> fs st' !! p = Some x) /\
  file_writes st' <= S (file_writes st).
Proof.
  intros Hrun.
  destruct (configOnce_Do parseConfig st) as [[] stc | |] eqn:Hload;
    try (unfold getSignerPublicKeyBlobref, bind in Hrun; rewrite Hload in Hrun;
         discriminate Hrun).
  pose proof (configOnce_Do_parseConfig_frame st stc Hload)
    as (_ & _ & Hfs & _ & _ & _ & _ & _ & Hw).
  destruct (as_string (config stc !! "keyId")) as [keyId|] eqn:Hkey.
  - rewrite (getSignerPublicKeyBlobref_steps st stc keyId Hload Hkey) in Hrun.
    assert (forall keyRing sk,
              publishSignerPublicKey keyId keyRing sk = Ret r st' ->
              fs sk = fs st -> file_writes sk = file_writes st ->
              (forall p x, fs st !! p = Some x -> fs st' !! p = Some x) /\
              file_writes st' <= S (file_writes st)) as Hpub.
    { intros keyRing sk Hp Hfs' Hw'.
      pose proof (publishSignerPublicKey_grows keyId keyRing sk) as Hg.
      rewrite Hp in Hg. simpl in Hg. now rewrite Hfs', Hw' in Hg. }
    destruct (as_string (config stc !! "secretRing")) as [keyRing|].
    + now apply (Hpub keyRing stc).
    + cbv zeta in Hrun. case_bool_decide.
      * eapply Hpub; [exact Hrun | exact Hfs | now rewrite file_writes_emit].
      * case_bool_decide.
        -- eapply Hpub; [exact Hrun | exact Hfs | now rewrite !file_writes_emit].
        -- injection Hrun as _ <-.
           split; [intros p x Hp; simpl; now rewrite Hfs |].
           unfold file_writes in *. simpl. rewrite ?filter_cons. simpl.
           repeat (destruct (decide _); try congruence); simpl; lia.
  - destruct (getSignerPublicKeyBlobref_stops_without_keyId st stc Hload Hkey)
      as (st2 & Hrun2 & Hfs2 & Hw2 & _).
    rewrite Hrun2 in Hrun. injection Hrun as _ <-.
    rewrite Hfs2, Hw2. split; [auto | lia].
Qed.


(** X15. Whatever [SignerPublicKeyBlobref] returned first, nil included,
    is what it returns for the rest of the process, with no effect at all,
    also after the files have changed: a resolution that failed is not
    tried again. *)
Theorem SignerPublicKeyBlobref_never_retried
    (st st1 : State) (r : option BlobRef) (files : gmap string node) :
  SignerPublicKeyBlobref st = Ret r st1 ->
  SignerPublicKeyBlobref (set_fs files st1) = Ret r (set_fs files st1).
Proof.
  unfold SignerPublicKeyBlobref, signerPublicKeyRefOnce_Do, Once_Do,
    initSignerPublicKeyBlobref, modify, gets, bind.
  destruct (signerPublicKeyRefOnce st) eqn:Hdone.
  - intros [= <- <-]. simpl. now rewrite Hdone.
  - destruct (getSignerPublicKeyBlobref st) as [r' st' | |]; simpl;
      try (intros H; discriminate H).
    intros [= <- <-]. reflexivity.
Qed.

End SignerMore.

(** No key id in the configuration of a fresh process. *)
Lemma getSignerPublicKeyBlobref_no_keyId_witness :
  let st := Demo.start ∅ None ∅ ∅ in
  exists st2,
    @getSignerPublicKeyBlobref (Demo.ext ∅) st = Ret None st2 /\
    fs st2 = fs st /\ file_writes st2 = file_writes st.
Proof.
  intros st.
  destruct (@getSignerPublicKeyBlobref_no_keyId (Demo.ext ∅) st
              (final (configOnce_Do parseConfig st)))
    as (st2 & Hrun & Hfs & Hw & _); [vm_compute; reflexivity .. |].
  exists st2. repeat split; assumption.
Defined.

Lemma getSignerPublicKeyBlobref_only_creates_witness :
  let obj : Obj := {[ "keyId" := JStr "K"; "secretRing" := JStr "/ring";
                      "selfPubKeyDir" := JStr "/pub" ]} in
  let st := Demo.start obj None ∅ {[ "/ring" := File "K"; "/pub" := Dir ]} in
  let st' := final (@getSignerPublicKeyBlobref (Demo.ext obj) st) in
  (forall p x, fs st !! p = Some x -> fs st' !! p = Some x) /\
  file_writes st' <= S (file_writes st).
Proof.
  intros obj st st'.
  apply (@getSignerPublicKeyBlobref_only_creates (Demo.ext obj) st st' (Some "PGP K")).
  vm_compute. reflexivity.
Defined.


(** Identity resolution fails for want of a key id, the files change, and
    the second call still answers nil. *)
Lemma SignerPublicKeyBlobref_never_retried_witness :
  let st := Demo.start ∅ None ∅ ∅ in
  let st1 := final (@SignerPublicKeyBlobref (Demo.ext ∅) st) in
  let files : gmap string node := {[ "/ring" := File "K" ]} in
  SignerPublicKeyBlobref (set_fs files st1) = Ret None (set_fs files st1).
Proof.
  intros st st1 files.
  apply (@SignerPublicKeyBlobref_never_retried (Demo.ext ∅) st st1 None files).
  vm_compute. reflexivity.
Defined.

(** ** More on the trusted certificates (lines 236-267) *)

Section TrustMore.
Context `{Ext : Externals}.

(** X16. With [CAMLI_TRUSTED_CERT] set, the first [GetTrustedCerts] of a
    process returns that one value, as given, and does nothing but store it
    in the [Client] and mark the [Once]: the configuration is not loaded,
    no file is looked at and nothing is logged. *)
Theorem GetTrustedCerts_env_only (c : nat) (st : State) (e : string) :
  initTrustedCertsOnce st = false ->
  env st !! "CAMLI_TRUSTED_CERT" = Some e -> e <> EmptyString ->
  GetTrustedCerts c st =
    Ret [e] (set_initTrustedCertsOnce true (update_client c (set_trustedCerts [e]) st)).
Proof.
  intros Hdone He Hne.
  unfold GetTrustedCerts, initTrustedCertsOnce_Do, Once_Do, bind, gets.
  rewrite Hdone, (initTrustedCerts_env c st e He Hne).
  unfold client_of, update_client. simpl. now rewrite lookup_insert_eq.
Qed.

Lemma leading_strings_all (val : list jvalue) :
  first_nonstring val = None -> length (leading_strings val) = length val.
Proof.
  induction val as [|v rest IH]; [reflexivity |].
  destruct v; simpl; try discriminate. intros H. now rewrite IH.
Qed.

(** X17. Without the environment variable, a [trustedCerts] list of
    strings only becomes the trust set whole: one lower-cased fingerprint
    per element, in the order of the list, and nothing is logged. *)
Theorem initTrustedCerts_all_strings (c : nat) (st st1 : State) (val : list jvalue) :
  default EmptyString (env st !! "CAMLI_TRUSTED_CERT") = EmptyString ->
  configOnce_Do parseConfig (update_client c (set_trustedCerts []) st) = Ret tt st1 ->
  config st1 !! trustedCertsKey = Some (JArr val) ->
  first_nonstring val = None ->
  exists st2,
    initTrustedCerts c st = Ret tt st2 /\
    trustedCerts (client_of st2 c) = map ToLower (leading_strings val) /\
    length (trustedCerts (client_of st2 c)) = length val /\
    trace st2 = trace st1.
Proof.
  intros He Hload Hval Hall.
  destruct (initTrustedCerts_config c st st1 val He Hload Hval) as (st2 & Hrun & Hcerts & Htrace).
  exists st2. rewrite Hall in Htrace. repeat split; try assumption.
  rewrite Hcerts, length_map. now apply leading_strings_all.
Qed.

(** X18. Without the environment variable, a configuration with no
    [trustedCerts], or with a value there that is not a list, gives the
    empty trust set, without a diagnostic. *)
Theorem initTrustedCerts_no_list (c : nat) (st st1 : State) :
  default EmptyString (env st !! "CAMLI_TRUSTED_CERT") = EmptyString ->
  configOnce_Do parseConfig (update_client c (set_trustedCerts []) st) = Ret tt st1 ->
  as_slice (config st1 !! trustedCertsKey) = None ->
  initTrustedCerts c st = Ret tt st1 /\ trustedCerts (client_of st1 c) = [].
Proof.
  intros He Hload Hval. split.
  - unfold initTrustedCerts, bind, os_Getenv, gets, modify. rewrite He. simpl.
    now rewrite Hload, Hval.
  - apply configOnce_Do_parseConfig_frame in Hload as (Hcl & _).
    unfold client_of. rewrite Hcl. unfold update_client. simpl.
    now rewrite lookup_insert_eq.
Qed.

Lemma initTrustedCerts_loop_env (c : nat) (val : list jvalue) (st : State) :
  env (final (initTrustedCerts_loop c val st)) = env st.
Proof.
  revert st. induction val as [|v rest IH]; intros st; [reflexivity |].
  destruct v; try reflexivity. simpl. unfold bind, modify. now rewrite IH.
Qed.

(** [initTrustedCerts] as one expression over the state it starts in. *)
Lemma initTrustedCerts_steps (c : nat) (st : State) :
  initTrustedCerts c st =
    let e := default EmptyString (env st !! "CAMLI_TRUSTED_CERT") in
    if negb (String.eqb e EmptyString)
    then Ret tt (update_client c (set_trustedCerts [e]) st)
    else match configOnce_Do parseConfig (update_client c (set_trustedCerts []) st) with
         | Ret _ st1 =>
             match as_slice (config st1 !! trustedCertsKey) with
             | None => Ret tt st1
             | Some val => initTrustedCerts_loop c val st1
             end
         | Fatal format args st1 => Fatal format args st1
         | Panic msg st1 => Panic msg st1
         end.
Proof.
  unfold initTrustedCerts, bind, os_Getenv, gets, modify. simpl.
  destruct (negb _); [reflexivity |].
  destruct (configOnce_Do parseConfig _) as [[] st1 | |]; try reflexivity.
  now destruct (as_slice _).
Qed.

Lemma client_of_update (c : nat) (f : Client -> Client) (st : State) :
  client_of (update_client c f st) c = f (client_of st c).
Proof. unfold client_of at 1, update_client. simpl. now rewrite lookup_insert_eq. Qed.

(** X19. Resolving the trusted certificates again for the same [Client]
    replaces its trust set, it does not append to it: once the
    configuration is loaded, a second run of [initTrustedCerts] leaves
    the set that the first run computed. *)
Theorem initTrustedCerts_again (c : nat) (st st1 : State) :
  configOnce st = true ->
  initTrustedCerts c st = Ret tt st1 ->
  exists st2,
    initTrustedCerts c st1 = Ret tt st2 /\
    trustedCerts (client_of st2 c) = trustedCerts (client_of st1 c).
Proof.
  intros Honce Hrun.
  rewrite initTrustedCerts_steps in Hrun. rewrite initTrustedCerts_steps. cbv zeta in *.
  assert (forall f s, configOnce s = true ->
            configOnce_Do parseConfig (update_client c f s) = Ret tt (update_client c f s))
    as Hdone by (intros f s Hs; now apply configOnce_Do_done).
  destruct (negb (String.eqb (default EmptyString (env st !! "CAMLI_TRUSTED_CERT"))
                             EmptyString)) eqn:He.
  - injection Hrun as <-.
    change (env (update_client c
                   (set_trustedCerts [default EmptyString (env st !! "CAMLI_TRUSTED_CERT")]) st))
      with (env st).
    rewrite He. eexists. split; [reflexivity |]. now rewrite !client_of_update.
  - rewrite (Hdone _ st Honce) in Hrun.
    change (config (update_client c (set_trustedCerts []) st)) with (config st) in Hrun.
    destruct (as_slice (config st !! trustedCertsKey)) as [val|] eqn:Hval.
    + destruct (initTrustedCerts_loop_spec c val (update_client c (set_trustedCerts []) st))
        as (st1' & Hloop & Hcerts & _ & Hcfg & Hdone1).
      pose proof (initTrustedCerts_loop_env c val (update_client c (set_trustedCerts []) st))
        as Henv.
      rewrite Hloop in Hrun, Henv. injection Hrun as ->. simpl in Henv, Hcfg, Hdone1.
      rewrite Henv, He.
      rewrite (Hdone _ st1) by congruence.
      change (config (update_client c (set_trustedCerts []) st1)) with (config st1).
      rewrite Hcfg, Hval.
      destruct (initTrustedCerts_loop_spec c val (update_client c (set_trustedCerts []) st1))
        as (st2 & Hloop2 & Hcerts2 & _).
      exists st2. split; [exact Hloop2 |].
      now rewrite Hcerts2, Hcerts, !client_of_update.
    + injection Hrun as <-.
      change (env (update_client c (set_trustedCerts []) st)) with (env st).
      rewrite He.
      rewrite (Hdone _ (update_client c (set_trustedCerts []) st)) by exact Honce.
      change (config (update_client c (set_trustedCerts [])
                        (update_client c (set_trustedCerts []) st))) with (config st).
      rewrite Hval. eexists. split; [reflexivity |]. now rewrite !client_of_update.
Qed.

(** X20. A second [GetTrustedCerts] on the same [Client] returns what
    the first returned and changes nothing. *)
Theorem GetTrustedCerts_same_client_twice (c : nat) (st st1 : State) (l : list string) :
  GetTrustedCerts c st = Ret l st1 ->
  GetTrustedCerts c st1 = Ret l st1.
Proof.
  unfold GetTrustedCerts, initTrustedCertsOnce_Do, Once_Do, bind, gets.
  destruct (initTrustedCertsOnce st) eqn:Hdone.
  - intros [= <- <-]. now rewrite Hdone.
  - destruct (initTrustedCerts c st) as [[] st' | |]; simpl;
      try (intros H; discriminate H).
    intros [= <- <-]. reflexivity.
Qed.

End TrustMore.

Lemma GetTrustedCerts_env_only_witness :
  let st := Demo.start ∅ None {[ "CAMLI_TRUSTED_CERT" := "abc123" ]} ∅ in
  @GetTrustedCerts (Demo.ext ∅) 0 st =
    Ret ["abc123"]
        (set_initTrustedCertsOnce true (update_client 0 (set_trustedCerts ["abc123"]) st)).
Proof.
  intros st. apply (@GetTrustedCerts_env_only (Demo.ext ∅) 0 st "abc123");
    [reflexivity | vm_compute; reflexivity | discriminate].
Defined.

Lemma initTrustedCerts_all_strings_witness :
  let val := [JStr "ABC123"; JStr "00ff"] in
  let obj : Obj := {[ "trustedCerts" := JArr val ]} in
  let st := Demo.start obj None ∅ ∅ in
  exists st2,
    @initTrustedCerts (Demo.ext obj) 0 st = Ret tt st2 /\
    trustedCerts (client_of st2 0) = ["abc123"; "00ff"].
Proof.
  intros val obj st.
  destruct (@initTrustedCerts_all_strings (Demo.ext obj) 0 st
              (final (configOnce_Do parseConfig (update_client 0 (set_trustedCerts []) st)))
              val)
    as (st2 & Hrun & Hcerts & _); [vm_compute; reflexivity .. |].
  exists st2. split; [exact Hrun | exact Hcerts].
Defined.

(** A string where the list should be. *)
Lemma initTrustedCerts_no_list_witness :
  let obj : Obj := {[ "trustedCerts" := JStr "abc123" ]} in
  let st := Demo.start obj None ∅ ∅ in
  let st1 := final (configOnce_Do parseConfig (update_client 0 (set_trustedCerts []) st)) in
  @initTrustedCerts (Demo.ext obj) 0 st = Ret tt st1 /\ trustedCerts (client_of st1 0) = [].
Proof.
  intros obj st st1.
  apply (@initTrustedCerts_no_list (Demo.ext obj) 0 st st1); vm_compute; reflexivity.
Defined.

Lemma initTrustedCerts_again_witness :
  let obj : Obj := {[ "trustedCerts" := JArr [JStr "ABC123"] ]} in
  let st := final (configOnce_Do parseConfig (Demo.start obj None ∅ ∅)) in
  let st1 := final (@initTrustedCerts (Demo.ext obj) 0 st) in
  exists st2,
    initTrustedCerts 0 st1 = Ret tt st2 /\
    trustedCerts (client_of st2 0) = trustedCerts (client_of st1 0).
Proof.
  intros obj st st1.
  apply (@initTrustedCerts_again (Demo.ext obj) 0 st st1); vm_compute; reflexivity.
Defined.

Lemma GetTrustedCerts_same_client_twice_witness :
  let obj : Obj := {[ "trustedCerts" := JArr [JStr "ABC123"] ]} in
  let st := Demo.start obj None ∅ ∅ in
  let st1 := final (@GetTrustedCerts (Demo.ext obj) 0 st) in
  GetTrustedCerts 0 st1 = Ret ["abc123"] st1.
Proof.
  intros obj st st1.
  apply (@GetTrustedCerts_same_client_twice (Demo.ext obj) 0 st st1 ["abc123"]).
  vm_compute. reflexivity.
Defined.

Lemma initTrustedCerts_config_lowercased_witness :
  let val := [JStr "ABC123"; JNum 5; JStr "DEF"] in
  let obj : Obj := {[ "trustedCerts" := JArr val ]} in
  let st := Demo.start obj None ∅ ∅ in
  Forall lowercased
    (trustedCerts (client_of (final (@initTrustedCerts (Demo.ext obj) 0 st)) 0)).
Proof.
  intros val obj st.
  apply (@initTrustedCerts_config_lowercased (Demo.ext obj) 0 st
           (final (configOnce_Do parseConfig (update_client 0 (set_trustedCerts []) st)))
           val); vm_compute; reflexivity.
Defined.

Section FlagMore.
Context `{Ext : Externals}.

(** X22. [ExplicitServer] reports the flag as it was given, without
    normalizing it and without any effect; a flag that is nil and a flag
    that is empty are both reported as the empty string, and then server
    resolution goes by the configuration; any other report is the server
    that [serverOrDie] normalizes and returns without loading anything. *)
Theorem ExplicitServer_agrees_with_serverOrDie (st : State) :
  exists s,
    ExplicitServer st = Ret s st /\
    (s = EmptyString -> explicit_flag st = None) /\
    (s <> EmptyString ->
     flagServer st = Some s /\ serverOrDie st = Ret (cleanServer s) st).
Proof.
  unfold ExplicitServer, gets.
  destruct (flagServer st) as [s|] eqn:Hflag.
  - exists s. split; [reflexivity |]. split.
    + intros ->. unfold explicit_flag. now rewrite Hflag.
    + intros Hne. split; [reflexivity |].
      apply serverOrDie_flag. now apply explicit_flag_Some.
  - exists EmptyString. split; [reflexivity |]. split.
    + intros _. unfold explicit_flag. now rewrite Hflag.
    + intros Hne. now contradiction Hne.
Qed.

End FlagMore.

Lemma ExplicitServer_agrees_with_serverOrDie_witness :
  let st := @initState (Demo.ext ∅) (Some "localhost:3179") ∅ ∅ ∅ in
  exists s,
    ExplicitServer st = Ret s st /\
    (s = EmptyString -> explicit_flag st = None) /\
    (s <> EmptyString ->
     flagServer st = Some s /\ serverOrDie st = Ret (cleanServer s) st).
Proof. intros st. apply (@ExplicitServer_agrees_with_serverOrDie (Demo.ext ∅) st). Defined.

Lemma cleanServer_fixpoint_iff_witness :
  cleanServer "https://example.com" = "https://example.com".
Proof. apply cleanServer_fixpoint_iff. split; reflexivity. Defined.
